(** * The Telegram monitor: a resilient polling / dispatch supervisor

    A shallow embedding of [src/telegram/monitor.ts]: the failure
    classifier, the credential-change reconciler, the checkpoint callback
    [persistUpdateId] and the poll restart loop of
    [monitorTelegramProvider].

    Conventions of the embedding.
    - Update ids are JavaScript numbers that the provider only ever fills
      with integers; they are modelled as [Z].
    - JavaScript strings are modelled as [string] (8-bit characters);
      [toLowerCase] folds the ASCII letters.
    - Every [await] on a collaborator gets its outcome from an explicit
      environment argument; every observable action is appended to a
      trace kept in the session state.
    - Collaborators whose code lives in other modules
      ([formatErrorMessage], [isRecoverableTelegramNetworkError]) are
      arguments of the definitions that call them. *)

From Stdlib Require Import ZArith QArith Qminmax Qpower Qabs.
From Stdlib Require Import Bool List Ascii String Lia Lqa Sorted.
Import ListNotations.

(* ================================================================= *)
(** ** JavaScript strings *)

Module JsString.

Local Open Scope string_scope.

Definition lowerAscii (c : ascii) : ascii :=
  let n := nat_of_ascii c in
  if (65 <=? n)%nat && (n <=? 90)%nat then ascii_of_nat (n + 32) else c.

(** [String.prototype.toLowerCase]. *)
Fixpoint toLowerCase (s : string) : string :=
  match s with
  | EmptyString => EmptyString
  | String c rest => String (lowerAscii c) (toLowerCase rest)
  end.

Fixpoint startsWith (needle hay : string) : bool :=
  match needle, hay with
  | EmptyString, _ => true
  | String _ _, EmptyString => false
  | String a n', String b h' => Ascii.eqb a b && startsWith n' h'
  end.

(** [String.prototype.includes]. *)
Fixpoint includes (needle hay : string) : bool :=
  startsWith needle hay ||
  match hay with
  | EmptyString => false
  | String _ h' => includes needle h'
  end.

(** [Array.prototype.join]. *)
Definition join (sep : string) (parts : list string) : string :=
  String.concat sep parts.

(** A string is falsy exactly when it is empty. *)
Definition isEmpty (s : string) : bool :=
  match s with EmptyString => true | _ => false end.

Fixpoint occurs (c : ascii) (s : string) : bool :=
  match s with
  | EmptyString => false
  | String a rest => Ascii.eqb a c || occurs c rest
  end.

(** The specification's reading of "contains, case-insensitively": some
    contiguous piece of the text is the needle once case is folded. *)
Definition containsIgnoringCase (needle text : string) : Prop :=
  exists before piece after,
    text = before ++ piece ++ after /\ toLowerCase piece = needle.

End JsString.

(* ================================================================= *)
(** ** JavaScript values as far as the classifier inspects them *)

Module Js.

(** A property of an error object. *)
Inductive JsField : Type :=
| FUndefined
| FNull
| FNumber (n : Z)
| FString (s : string)
| FOther.          (* boolean, object, non-integral number, ... *)

(** The properties [isGetUpdatesConflict] reads through its cast. *)
Record ErrorFields : Type := mkErrorFields {
  error_code : JsField;
  errorCode : JsField;
  description : JsField;
  method : JsField;
  message : JsField
}.

(** A thrown value ([err : unknown]). *)
Inductive JsVal : Type :=
| VFalsy                      (* undefined, null, false, 0, NaN, the empty string *)
| VPrimitive (repr : string)  (* any truthy value that is not an object *)
| VObject (o : ErrorFields).

Definition truthy (v : JsVal) : bool :=
  match v with VFalsy => false | _ => true end.

Definition isObject (v : JsVal) : bool :=
  match v with VObject _ => true | _ => false end.

Definition nullish (f : JsField) : bool :=
  match f with FUndefined | FNull => true | _ => false end.

(** [a ?? b]. *)
Definition coalesce (a b : JsField) : JsField :=
  if nullish a then b else a.

(** [.filter((value): value is string => typeof value === "string")]. *)
Definition onlyStrings (fs : list JsField) : list string :=
  flat_map (fun f => match f with FString s => [s] | _ => [] end) fs.

(** [value !== 409]. *)
Definition isNot409 (f : JsField) : bool :=
  match f with FNumber n => negb (n =? 409)%Z | _ => true end.

End Js.

Export Js.

(* ================================================================= *)
(** ** Failure classifier (monitor.ts, lines 63-104 and 254-262) *)

Module Classifier.

Import JsString.
Local Open Scope string_scope.

Definition isGetUpdatesConflict (err : JsVal) : bool :=
  match err with
  | VObject typed =>
      let code := coalesce (error_code typed) (errorCode typed) in
      if isNot409 code then false
      else
        let haystack :=
          toLowerCase
            (join " " (onlyStrings [method typed; description typed; message typed])) in
        includes "getupdates" haystack
  | _ => false
  end.

Definition NETWORK_ERROR_SNIPPETS : list string :=
  [ "fetch failed"; "network"; "timeout"; "socket";
    "econnreset"; "econnrefused"; "undici" ].

Definition isNetworkRelatedError
    (formatErrorMessage : JsVal -> string) (err : JsVal) : bool :=
  if negb (truthy err) then false
  else
    let message := toLowerCase (formatErrorMessage err) in
    if isEmpty message then false
    else existsb (fun snippet => includes snippet message) NETWORK_ERROR_SNIPPETS.

(** The collaborators of the classifier that live in other modules:
    [formatErrorMessage] (infra/errors) and
    [isRecoverableTelegramNetworkError] (telegram/network-errors), the
    latter already applied to the context ["polling"]. *)
Record Collaborators : Type := mkCollaborators {
  formatErrorMessage : JsVal -> string;
  isRecoverableTelegramNetworkError : JsVal -> bool
}.

Inductive FailureClass : Type := conflict | recoverableNetwork | fatal.

(** The three tests of the [catch] block, the rethrow condition of line
    257 and the [reason] of line 262 as one function. *)
Definition classify (env : Collaborators) (err : JsVal) : FailureClass :=
  let isConflict := isGetUpdatesConflict err in
  let isRecoverable := isRecoverableTelegramNetworkError env err in
  let isNetworkError := isNetworkRelatedError (formatErrorMessage env) err in
  if negb isConflict && negb isRecoverable && negb isNetworkError then fatal
  else if isConflict then conflict else recoverableNetwork.

End Classifier.

(* ================================================================= *)
(** ** Backoff policy and interruptible sleep (infra/backoff) *)

Module Backoff.

Local Open Scope Q_scope.

Record BackoffPolicy : Type := mkPolicy {
  initialMs : Q;
  maxMs : Q;
  factor : Q;
  jitter : Q
}.

(** monitor.ts, lines 56-61. *)
Definition TELEGRAM_POLL_RESTART_POLICY : BackoffPolicy :=
  {| initialMs := 2000; maxMs := 30000; factor := 18 # 10; jitter := 25 # 100 |}.

(** Modelled from the spec: the delay of attempt [n] before jitter,
    [min(maxDelay, initialDelay * growthFactor^(n-1))]; the code of
    [computeBackoff] (infra/backoff) is not among the sources. *)
Definition unjitteredDelay (policy : BackoffPolicy) (attempt : nat) : Q :=
  Qmin (maxMs policy)
       (initialMs policy * factor policy ^ (Z.of_nat attempt - 1)).

(** Modelled from the spec: [computeBackoff] (infra/backoff), the
    un-jittered delay perturbed by [+-jitterFraction] and clamped to
    [maxDelay].  [draw], between -1 and 1, is the random draw of the
    call. *)
Definition computeBackoff (policy : BackoffPolicy) (attempt : nat) (draw : Q) : Q :=
  Qmin (maxMs policy)
       (unjitteredDelay policy attempt * (1 + jitter policy * draw)).

(** How an [await sleepWithAbort(...)] ends, as the loop observes it. *)
Record SleepEnd : Type := mkSleepEnd {
  sleepRejects : option JsVal;    (* [Some e]: the promise rejects with [e] *)
  abortFiredMeanwhile : bool;     (* the signal fired while the loop slept *)
  elapsedMs : Q
}.

(** Modelled from the spec: [sleepWithAbort] (infra/backoff), a sleep that
    observes the cancellation signal and ends at once, discarding the
    remaining delay, when cancellation fires.  [abortAfter = Some t]: the
    signal fires [t] ms into the sleep. *)
Definition sleepWithAbort (delayMs : Q) (abortAfter : option Q) : SleepEnd :=
  match abortAfter with
  | Some t =>
      if Qle_bool delayMs t
      then {| sleepRejects := None; abortFiredMeanwhile := false; elapsedMs := delayMs |}
      else {| sleepRejects := Some (VPrimitive "aborted");
              abortFiredMeanwhile := true; elapsedMs := t |}
  | None => {| sleepRejects := None; abortFiredMeanwhile := false; elapsedMs := delayMs |}
  end.

End Backoff.

(* ================================================================= *)
(** ** Checkpoint store (telegram/update-offset-store) *)

Module OffsetStore.

(** What the monitor reads off the stored state:
    [storedState?.lastUpdateId] and [storedState?.tokenHash]. *)
Record StoredState : Type := mkStoredState {
  lastUpdateId : option Z;
  tokenHash : option string
}.

(** The persisted record [{version, lastUpdateId, tokenHash?}]. *)
Record PersistedRecord : Type := mkRecord {
  version : Z;
  recLastUpdateId : option Z;
  recTokenHash : option string
}.

Inductive StateFile : Type :=
| NoFile
| Unreadable
| Holds (r : PersistedRecord).

Inductive ReadResult : Type :=
| ReadOk (state : option StoredState)
| StorageError.

(** Modelled from the spec: [readTelegramUpdateOffsetState]; no prior
    state is a normal [null] result, unreadable state fails with a
    storage error, and a version-1 record, which lacks the fingerprint, is
    read with the fingerprint unknown.  Only the test of the store is among
    the sources. *)
Definition readTelegramUpdateOffsetState (file : StateFile) : ReadResult :=
  match file with
  | NoFile => ReadOk None
  | Unreadable => StorageError
  | Holds r =>
      ReadOk (Some {| lastUpdateId := recLastUpdateId r;
                      tokenHash := if (version r =? 1)%Z then None else recTokenHash r |})
  end.

(** Modelled from the spec: [writeTelegramUpdateOffset]; replaces the
    record by a version-2 record with the id and the fingerprint, or
    fails on an I/O failure and leaves the file as it was. *)
Definition writeTelegramUpdateOffset
    (updateId : Z) (hash : string) (ioFails : bool) (file : StateFile)
  : bool * StateFile :=
  if ioFails then (false, file)
  else (true, Holds {| version := 2; recLastUpdateId := Some updateId;
                       recTokenHash := Some hash |}).

End OffsetStore.

(* ================================================================= *)
(** ** The monitor (monitor.ts, lines 106-279) *)

Module Monitor.

Import JsString Classifier Backoff.
Local Open Scope string_scope.

(** *** Observable actions *)

Inductive LogLine : Type :=
| LogTokenChanged (accountId : string)
| LogCatchUpStatus (status : Z) (description : string)
| LogCatchUpFailed (err : JsVal)
| LogPersistFailed (err : JsVal)
| LogRetry (reason : string) (errMsg : string) (delayMs : Q).

(** The signal argument of a call. *)
Inductive SignalArgument : Type :=
| OptsAbortSignal.    (* [opts.abortSignal], the signal the loop itself tests *)

Inductive Effect : Type :=
| EStoreRead (accountId : string)
| EStoreWrite (accountId : string) (updateId : Z) (hash : string)
| EFetch (url : string) (timeoutMs : Z)
| ELog (line : LogLine)
| EAssign (checkpoint : option Z)   (* [lastUpdateId = ...] *)
| ECreateBot (seed : option Z)
| EStartWebhook
| ERunWorker                        (* [run(bot, ...)] *)
| EStopWorker                       (* [runner.stop()] from the abort listener *)
| EComputeBackoff (attempt : nat)
| ESleep (delayMs : Q) (signal : SignalArgument)
                                    (* [sleepWithAbort(delayMs, opts.abortSignal)] *)
| EAbortFired.                      (* the cancellation signal fires *)

(** *** Session state: the closure variables of [monitorTelegramProvider]
    together with the cancellation flag and the trace *)

Record Session : Type := mkSession {
  lastUpdateId : option Z;
  restartAttempts : nat;
  aborted : bool;
  trace : list Effect
}.

Definition initialSession (abortedAtStart : bool) : Session :=
  {| lastUpdateId := None; restartAttempts := 0; aborted := abortedAtStart;
     trace := if abortedAtStart then [EAbortFired] else [] |}.

(** *** A state and exception monad for the asynchronous code *)

Inductive Outcome (A : Type) : Type :=
| Done (a : A)
| Raised (e : JsVal).

Arguments Done {A} a.
Arguments Raised {A} e.

Definition Eff (A : Type) : Type := Session -> Outcome A * Session.

Definition ret {A} (a : A) : Eff A := fun st => (Done a, st).

Definition raise {A} (e : JsVal) : Eff A := fun st => (Raised e, st).

Definition bind {A B} (m : Eff A) (k : A -> Eff B) : Eff B :=
  fun st =>
    match m st with
    | (Done a, st') => k a st'
    | (Raised e, st') => (Raised e, st')
    end.

(** [try { m } catch (err) { handler err }]. *)
Definition tryCatch {A} (m : Eff A) (handler : JsVal -> Eff A) : Eff A :=
  fun st =>
    match m st with
    | (Done a, st') => (Done a, st')
    | (Raised e, st') => handler e st'
    end.

Notation "x <- m ;; k" := (bind m (fun x => k))
  (at level 61, m at next level, right associativity).
Notation "m ;; k" := (bind m (fun _ => k))
  (at level 61, right associativity).

Definition emit (e : Effect) : Eff unit :=
  fun st => (Done tt, {| lastUpdateId := lastUpdateId st;
                         restartAttempts := restartAttempts st;
                         aborted := aborted st;
                         trace := trace st ++ [e] |}).

Definition log (line : LogLine) : Eff unit := emit (ELog line).

Definition readLastUpdateId : Eff (option Z) :=
  fun st => (Done (lastUpdateId st), st).

Definition assign (v : option Z) : Eff unit :=
  fun st => (Done tt, {| lastUpdateId := v;
                         restartAttempts := restartAttempts st;
                         aborted := aborted st;
                         trace := trace st ++ [EAssign v] |}).

Definition isAborted : Eff bool :=
  fun st => (Done (aborted st), st).

(** The environment fires the cancellation signal. *)
Definition abortFires : Eff unit :=
  fun st => (Done tt, {| lastUpdateId := lastUpdateId st;
                         restartAttempts := restartAttempts st;
                         aborted := true;
                         trace := trace st ++ [EAbortFired] |}).

(** [restartAttempts += 1], giving the new value. *)
Definition bumpRestartAttempts : Eff nat :=
  fun st => (Done (S (restartAttempts st)),
             {| lastUpdateId := lastUpdateId st;
                restartAttempts := S (restartAttempts st);
                aborted := aborted st;
                trace := trace st |}).

Fixpoint forEach {A} (items : list A) (body : A -> Eff unit) : Eff unit :=
  match items with
  | [] => ret tt
  | x :: rest => body x ;; forEach rest body
  end.

(** *** Configuration and environment *)

(** What lines 107-111 and 119-122 resolve before the store is read (the
    configuration, the account, the proxy fetch, the hash of the token)
    is given. *)
Record Options : Type := mkOptions {
  token : string;          (* [opts.token?.trim() || account.token] *)
  accountId : string;
  tokenHash : string;      (* [hashTelegramToken(token)] *)
  useWebhook : bool
}.

(** One entry of [json.result]: its [update_id]. *)
Inductive UpdateIdField : Type :=
| IdNumber (n : Z)
| IdNotFinite        (* a number that fails [Number.isFinite] *)
| IdNotANumber.      (* missing, or not of type number *)

Record ProbeJson : Type := mkProbeJson {
  json_ok : bool;
  json_description : option string;
  json_result : option (list UpdateIdField)
}.

(** How the catch-up [getUpdates] request ends. *)
Inductive ProbeReply : Type :=
| ProbeThrows (err : JsVal)     (* fetch rejects or times out, or [res.json()] rejects *)
| ProbeAnswers (res_ok : bool) (status : Z) (json : option ProbeJson).

(** One [onUpdateId] call of the worker and how the store write it may
    issue ends ([Some e]: the write throws [e]). *)
Record Delivery : Type := mkDelivery {
  updateId : Z;
  writeThrows : option JsVal
}.

(** One turn of the restart loop as the environment plays it. *)
Record Iteration : Type := mkIteration {
  deliveries : list Delivery;
  abortWhileRunning : bool;      (* the signal fires while [runner.task()] is pending *)
  taskEnd : option JsVal;        (* [None]: the task resolves; [Some err]: it rejects *)
  draw : Q;                      (* random draw of [computeBackoff] *)
  backoffSleep : SleepEnd
}.

Record World : Type := mkWorld {
  storeRead : Outcome (option OffsetStore.StoredState);
  probe : ProbeReply;
  backfillThrows : option JsVal;
  webhookThrows : option JsVal;
  runs : list Iteration
}.

(** *** Collaborator calls *)

Definition readTelegramUpdateOffsetState
    (account : string) (reply : Outcome (option OffsetStore.StoredState))
  : Eff (option OffsetStore.StoredState) :=
  emit (EStoreRead account) ;;
  match reply with
  | Done s => ret s
  | Raised e => raise e
  end.

Definition writeTelegramUpdateOffset
    (account : string) (id : Z) (hash : string) (throws : option JsVal) : Eff unit :=
  emit (EStoreWrite account id hash) ;;
  match throws with
  | None => ret tt
  | Some e => raise e
  end.

Definition fetchWithTimeout (url : string) (timeoutMs : Z) (reply : ProbeReply)
  : Eff (bool * Z * option ProbeJson) :=
  emit (EFetch url timeoutMs) ;;
  match reply with
  | ProbeThrows e => raise e
  | ProbeAnswers res_ok status json => ret (res_ok, status, json)
  end.

Definition startTelegramWebhook (throws : option JsVal) : Eff unit :=
  emit EStartWebhook ;;
  match throws with
  | None => ret tt
  | Some e => raise e
  end.

(** *** Startup: read and reconcile the checkpoint (lines 122-187) *)

(** [.filter((v): v is number => typeof v === "number" && Number.isFinite(v))]. *)
Definition finiteNumbers (ids : list UpdateIdField) : list Z :=
  flat_map (fun v => match v with IdNumber n => [n] | _ => [] end) ids.

(** [ids.length ? Math.max(...ids) : null]. *)
Definition maxId (ids : list Z) : option Z :=
  match ids with
  | [] => None
  | first :: others => Some (fold_left Z.max others first)
  end.

Definition catchUpUrl (opts : Options) : string :=
  "https://api.telegram.org/bot" ++ token opts ++ "/getUpdates?limit=100&timeout=0".

(** A string property is truthy when it is a non-empty string. *)
Definition truthyHash (h : option string) : bool :=
  match h with
  | Some s => negb (isEmpty s)
  | None => false
  end.

Definition tokenChanged (opts : Options) (stored : option OffsetStore.StoredState) : bool :=
  match stored with
  | Some s =>
      truthyHash (OffsetStore.tokenHash s) &&
      negb (match OffsetStore.tokenHash s with
            | Some h => String.eqb h (tokenHash opts)
            | None => false
            end)
  | None => false
  end.

Definition needsBackfill (stored : option OffsetStore.StoredState) : option Z :=
  match stored with
  | Some s =>
      match OffsetStore.tokenHash s with
      | None => OffsetStore.lastUpdateId s
      | Some _ => None
      end
  | None => None
  end.

Definition reconcile (opts : Options) (world : World)
    (stored : option OffsetStore.StoredState) : Eff unit :=
  if tokenChanged opts stored then
    log (LogTokenChanged (accountId opts)) ;;
    tryCatch
      (reply <- fetchWithTimeout (catchUpUrl opts) 5000 (probe world) ;;
       let '(res_ok, status, json) := reply in
       if res_ok && match json with Some j => json_ok j | None => false end then
         let ids :=
           finiteNumbers
             (match json with
              | Some j => match json_result j with Some r => r | None => [] end
              | None => []
              end) in
         assign (maxId ids)
       else
         log (LogCatchUpStatus status
                (match json with
                 | Some j => match json_description j with
                             | Some d => d
                             | None => "unknown error"
                             end
                 | None => "unknown error"
                 end)) ;;
         assign None)
      (fun err => log (LogCatchUpFailed err) ;; assign None)
  else
    match needsBackfill stored with
    | Some id =>
        tryCatch
          (writeTelegramUpdateOffset (accountId opts) id (tokenHash opts)
             (backfillThrows world))
          (fun _ => ret tt)
    | None => ret tt
    end.

(** *** The checkpoint callback (lines 189-205)

    The guard and the assignment run before the first [await] of a call,
    so no other call can come between them; the calls of the worker are
    therefore taken one after the other, each with the outcome of its
    store write. *)

Definition persistUpdateId (opts : Options) (d : Delivery) : Eff unit :=
  current <- readLastUpdateId ;;
  if match current with
     | Some last => (updateId d <=? last)%Z
     | None => false
     end
  then ret tt
  else
    assign (Some (updateId d)) ;;
    tryCatch
      (writeTelegramUpdateOffset (accountId opts) (updateId d) (tokenHash opts)
         (writeThrows d))
      (fun err => log (LogPersistFailed err)).

(** *** The restart loop (lines 236-278)

    The loop need not end; it is played against a script of turns, one
    per worker, and reports [WorkerPending] when it has started a worker
    for which the script has no turn.  The abort listener is registered
    before the task of each worker is awaited and removed in the
    [finally] of the turn, after the backoff sleep; it leaves no other
    trace than the [runner.stop()] it triggers when the signal fires. *)

Inductive RunState : Type :=
| Returned          (* the promise of [monitorTelegramProvider] resolves *)
| WorkerPending.    (* a worker is running and the script has no more turns *)

Inductive LoopStep : Type := Continue | Exit.

(** The sleep is awaited inside the [catch] block, before the [finally]
    that removes the abort listener: when the signal fires meanwhile the
    listener still calls [runner.stop()]. *)
Definition awaitSleep (s : SleepEnd) : Eff unit :=
  (if abortFiredMeanwhile s then abortFires ;; emit EStopWorker else ret tt) ;;
  match sleepRejects s with
  | None => ret tt
  | Some e => raise e
  end.

Fixpoint pollLoop (env : Collaborators) (opts : Options) (script : list Iteration)
  : Eff RunState :=
  stop <- isAborted ;;
  if stop then ret Returned
  else
    emit ERunWorker ;;
    match script with
    | [] => ret WorkerPending
    | turn :: later =>
        forEach (deliveries turn) (persistUpdateId opts) ;;
        (if abortWhileRunning turn then abortFires ;; emit EStopWorker else ret tt) ;;
        match taskEnd turn with
        | None => ret Returned
        | Some err =>
            cancelled <- isAborted ;;
            if cancelled then raise err
            else
              match classify env err with
              | fatal => raise err
              | cls =>
                  attempt <- bumpRestartAttempts ;;
                  emit (EComputeBackoff attempt) ;;
                  let delayMs :=
                    computeBackoff TELEGRAM_POLL_RESTART_POLICY attempt (draw turn) in
                  log (LogRetry
                         (match cls with
                          | conflict => "getUpdates conflict"
                          | _ => "network error"
                          end)
                         (formatErrorMessage env err) delayMs) ;;
                  emit (ESleep delayMs OptsAbortSignal) ;;
                  step <- tryCatch
                            (awaitSleep (backoffSleep turn) ;; ret Continue)
                            (fun sleepErr =>
                               cancelled' <- isAborted ;;
                               if cancelled' then ret Exit else raise sleepErr) ;;
                  match step with
                  | Exit => ret Returned
                  | Continue => pollLoop env opts later
                  end
              end
        end
    end.

(** *** The entry point *)

Definition missingToken (opts : Options) : JsVal :=
  VObject {| error_code := FUndefined; errorCode := FUndefined;
             description := FUndefined; method := FUndefined;
             message := FString ("Telegram bot token missing for account "
                                 ++ accountId opts) |}.

(** Lines 107-217: up to and including [createTelegramBot]. *)
Definition startup (opts : Options) (world : World) : Eff unit :=
  if isEmpty (token opts) then raise (missingToken opts)
  else
    storedState <- readTelegramUpdateOffsetState (accountId opts) (storeRead world) ;;
    assign (match storedState with
            | Some s => OffsetStore.lastUpdateId s
            | None => None
            end) ;;
    reconcile opts world storedState ;;
    seed <- readLastUpdateId ;;
    emit (ECreateBot seed).

Definition monitorTelegramProvider
    (env : Collaborators) (opts : Options) (world : World) : Eff RunState :=
  startup opts world ;;
  if useWebhook opts then
    startTelegramWebhook (webhookThrows world) ;;
    ret Returned
  else
    pollLoop env opts (runs world).

End Monitor.

(* ================================================================= *)
(** ** The classifier contract in the words of the specification *)

Module Contract.

Import JsString Classifier.
Local Open Scope string_scope.

(** The error is an object whose error code ([error_code], else
    [errorCode]) is 409 and one of whose listed string properties names
    the poll endpoint, whatever the case of the letters. *)
Definition pollerSignalIn (fields : ErrorFields -> list JsField) (err : JsVal) : Prop :=
  exists typed s,
    err = VObject typed /\
    coalesce (error_code typed) (errorCode typed) = FNumber 409 /\
    In (FString s) (fields typed) /\
    containsIgnoringCase "getupdates" s.

(** The properties the code searches. *)
Definition searchedFields (typed : ErrorFields) : list JsField :=
  [method typed; description typed; message typed].

(** The properties the specification names: method and description. *)
Definition methodOrDescription (typed : ErrorFields) : list JsField :=
  [method typed; description typed].

Definition duplicatePollerSignal : JsVal -> Prop := pollerSignalIn searchedFields.

(** The transport's own classifier marks the error recoverable, or the
    rendered message of a truthy error contains one of the snippets. *)
Definition networkHiccup (env : Collaborators) (err : JsVal) : Prop :=
  isRecoverableTelegramNetworkError env err = true \/
  (truthy err = true /\
   exists snippet,
     In snippet NETWORK_ERROR_SNIPPETS /\
     containsIgnoringCase snippet (formatErrorMessage env err)).

(** Sample collaborators: the message is the [message] property or the
    primitive's rendering, and the transport recognises nothing. *)
Definition plainCollaborators : Collaborators :=
  {| formatErrorMessage := fun err =>
       match err with
       | VObject o => match message o with FString s => s | _ => "Error" end
       | VPrimitive repr => repr
       | VFalsy => "undefined"
       end;
     isRecoverableTelegramNetworkError := fun _ => false |}.

Definition errorWith (code : JsField) (methodName text : JsField) : JsVal :=
  VObject {| error_code := code; errorCode := FUndefined;
             description := FUndefined; method := methodName; message := text |}.

(** A 409 whose only text is its message. *)
Definition conflictInMessageOnly : JsVal :=
  errorWith (FNumber 409) FUndefined
    (FString "Conflict: terminated by other getUpdates request").

(** What grammY raises for a duplicate poller. *)
Definition getUpdatesConflictError : JsVal :=
  errorWith (FNumber 409) (FString "getUpdates")
    (FString "Call to getUpdates failed").

Definition fetchFailedError : JsVal :=
  errorWith FUndefined FUndefined (FString "TypeError: fetch failed").

Definition unauthorizedError : JsVal :=
  errorWith (FNumber 401) (FString "getMe") (FString "Unauthorized").

End Contract.

(* ================================================================= *)
(** ** Vocabulary for the checkpoint properties *)

Module Checkpoint.

Import Monitor.
Local Open Scope Z_scope.

(** [m] is the maximum of the numbers in [l]. *)
Definition isMaximumOf (m : Z) (l : list Z) : Prop :=
  In m l /\ forall x, In x l -> x <= m.

(** The initial checkpoint, when there is one, and the delivered ids. *)
Definition candidates (initial : option Z) (ids : list Z) : list Z :=
  match initial with
  | Some c => c :: ids
  | None => ids
  end.

(** [final] is the maximum of the initial checkpoint and the ids, and is
    [null] only when there is nothing to take the maximum of. *)
Definition isMaximumSeen (initial : option Z) (ids : list Z) (final : option Z) : Prop :=
  match final with
  | Some m => isMaximumOf m (candidates initial ids)
  | None => candidates initial ids = []
  end.

(** The log line of a [persistUpdateId] call whose store write throws. *)
Definition persistLog (d : Delivery) : list Effect :=
  match writeThrows d with
  | None => []
  | Some e => [ELog (LogPersistFailed e)]
  end.

(** The session after a call of [persistUpdateId] that passes the guard:
    the in-memory checkpoint is assigned first, then the write is
    issued, then its failure, if any, is logged. *)
Definition advanced (opts : Options) (d : Delivery) (st : Session) : Session :=
  {| lastUpdateId := Some (updateId d);
     restartAttempts := restartAttempts st;
     aborted := aborted st;
     trace := trace st
              ++ [EAssign (Some (updateId d));
                  EStoreWrite (accountId opts) (updateId d) (tokenHash opts)]
              ++ persistLog d |}.

(** What a run of deliveries appends to the trace, given the in-memory
    checkpoint it starts from. *)
Fixpoint persistTrace (opts : Options) (current : option Z) (ds : list Delivery)
  : list Effect :=
  match ds with
  | [] => []
  | d :: rest =>
      if match current with
         | Some last => updateId d <=? last
         | None => false
         end
      then persistTrace opts current rest
      else [EAssign (Some (updateId d));
            EStoreWrite (accountId opts) (updateId d) (tokenHash opts)]
           ++ persistLog d ++ persistTrace opts (Some (updateId d)) rest
  end.

(** The session after the worker has delivered [ds]. *)
Definition delivered (opts : Options) (ds : list Delivery) (st : Session) : Session :=
  snd (forEach ds (persistUpdateId opts) st).

(** The guard of [persistUpdateId] lets the id through. *)
Definition accepts (st : Session) (d : Delivery) : Prop :=
  match lastUpdateId st with
  | Some last => last < updateId d
  | None => True
  end.

(** The same delivery with a store write that succeeds. *)
Definition healed (d : Delivery) : Delivery :=
  {| updateId := updateId d; writeThrows := None |}.

(** The same turn played against a store whose writes all succeed. *)
Definition healthyTurn (turn : Iteration) : Iteration :=
  {| deliveries := map healed (deliveries turn);
     abortWhileRunning := abortWhileRunning turn;
     taskEnd := taskEnd turn;
     draw := draw turn;
     backoffSleep := backoffSleep turn |}.

Definition isPersistFailure (e : Effect) : bool :=
  match e with
  | ELog (LogPersistFailed _) => true
  | _ => false
  end.

Definition withoutPersistFailures (t : list Effect) : list Effect :=
  filter (fun e => negb (isPersistFailure e)) t.

(** Two sessions that differ at most in the log lines about failed
    store writes. *)
Definition sameButPersistFailures (a b : Session) : Prop :=
  lastUpdateId a = lastUpdateId b /\
  restartAttempts a = restartAttempts b /\
  aborted a = aborted b /\
  withoutPersistFailures (trace a) = withoutPersistFailures (trace b).

Definition storeWrites (t : list Effect) : list Z :=
  flat_map (fun e => match e with EStoreWrite _ id _ => [id] | _ => [] end) t.

Definition delivery (id : Z) : Delivery :=
  {| updateId := id; writeThrows := None |}.

Definition failingDelivery (id : Z) : Delivery :=
  {| updateId := id; writeThrows := Some (VPrimitive "EACCES") |}.

Definition sampleOptions : Options :=
  {| token := "123:abc"; accountId := "default"; tokenHash := "h-current";
     useWebhook := false |}.

Definition sessionAt (checkpoint : option Z) : Session :=
  {| lastUpdateId := checkpoint; restartAttempts := 0; aborted := false; trace := [] |}.

End Checkpoint.

(* ================================================================= *)
(** ** Vocabulary for the restart loop: the session after each phase of a turn *)

Module Turn.

Import JsString Classifier Backoff Monitor Checkpoint.
Local Open Scope string_scope.

Definition extend (st : Session) (events : list Effect) : Session :=
  {| lastUpdateId := lastUpdateId st;
     restartAttempts := restartAttempts st;
     aborted := aborted st;
     trace := trace st ++ events |}.

Definition cancel (st : Session) (events : list Effect) : Session :=
  {| lastUpdateId := lastUpdateId st;
     restartAttempts := restartAttempts st;
     aborted := true;
     trace := trace st ++ events |}.

(** A worker has been started, has delivered its updates and its task
    has settled. *)
Definition afterWorker (opts : Options) (turn : Iteration) (st : Session) : Session :=
  let st1 := delivered opts (deliveries turn) (extend st [ERunWorker]) in
  if abortWhileRunning turn then cancel st1 [EAbortFired; EStopWorker] else st1.

Definition retryReason (cls : FailureClass) : string :=
  match cls with
  | conflict => "getUpdates conflict"
  | _ => "network error"
  end.

Definition backoffDelay (turn : Iteration) (st : Session) : Q :=
  computeBackoff TELEGRAM_POLL_RESTART_POLICY (S (restartAttempts st)) (draw turn).

(** The counter has been incremented, the delay computed and logged, and
    the sleep begun. *)
Definition backingOff (env : Collaborators) (err : JsVal) (turn : Iteration)
    (st : Session) : Session :=
  {| lastUpdateId := lastUpdateId st;
     restartAttempts := S (restartAttempts st);
     aborted := aborted st;
     trace := trace st
              ++ [EComputeBackoff (S (restartAttempts st));
                  ELog (LogRetry (retryReason (classify env err))
                          (formatErrorMessage env err) (backoffDelay turn st));
                  ESleep (backoffDelay turn st) OptsAbortSignal] |}.

(** The sleep has settled; if the signal fired meanwhile the listener has
    called [runner.stop()]. *)
Definition afterSleep (s : SleepEnd) (st : Session) : Session :=
  if abortFiredMeanwhile s then cancel st [EAbortFired; EStopWorker] else st.

(** Readings of a trace. *)
Definition workersStarted (t : list Effect) : nat :=
  List.length (filter (fun e => match e with ERunWorker => true | _ => false end) t).

Definition backoffAttempts (t : list Effect) : list nat :=
  flat_map (fun e => match e with EComputeBackoff n => [n] | _ => [] end) t.

Definition sleeps (t : list Effect) : list Q :=
  flat_map (fun e => match e with ESleep d _ => [d] | _ => [] end) t.

Definition logLines (t : list Effect) : list LogLine :=
  flat_map (fun e => match e with ELog l => [l] | _ => [] end) t.

(** The events a [persistUpdateId] call can leave in the trace. *)
Definition checkpointEvent (e : Effect) : bool :=
  match e with
  | EAssign (Some _) | EStoreWrite _ _ _ | ELog (LogPersistFailed _) => true
  | _ => false
  end.

Definition abortSeen (t : list Effect) : bool :=
  existsb (fun e => match e with EAbortFired => true | _ => false end) t.

(** No worker is started at or after a firing of the cancellation
    signal; [fired] tells whether the signal had fired before the trace
    begins. *)
Fixpoint quietAfterAbort (fired : bool) (t : list Effect) : bool :=
  match t with
  | [] => true
  | ERunWorker :: rest => negb fired && quietAfterAbort fired rest
  | EAbortFired :: rest => quietAfterAbort true rest
  | _ :: rest => quietAfterAbort fired rest
  end.

End Turn.

(* ================================================================= *)
(** ** Sample turns of the restart loop *)

Module Scenarios.

Import Classifier Backoff Monitor Checkpoint Contract Turn.

(** How the sleep after the [n]-th failure ends when the signal fires
    [abortAfter] ms into it, or not at all. *)
Definition sleepOfAttempt (n : nat) (abortAfter : option Q) : SleepEnd :=
  sleepWithAbort (computeBackoff TELEGRAM_POLL_RESTART_POLICY n 0) abortAfter.

(** A worker that delivers [ds] and whose task then rejects with [err];
    the backoff sleep that follows is the sleep of attempt [n]. *)
Definition failingTurn (ds : list Delivery) (err : JsVal) (n : nat)
    (abortAfter : option Q) : Iteration :=
  {| deliveries := ds; abortWhileRunning := false; taskEnd := Some err;
     draw := 0; backoffSleep := sleepOfAttempt n abortAfter |}.

(** A worker that is stopped by the cancellation signal and whose task
    rejects with [err]. *)
Definition cancelledTurn (err : JsVal) : Iteration :=
  {| deliveries := []; abortWhileRunning := true; taskEnd := Some err;
     draw := 0; backoffSleep := sleepOfAttempt 1 None |}.

(** A conflict, a restart, a worker that delivers two updates and then
    meets a second conflict. *)
Definition conflictDeliveriesConflict : list Iteration :=
  [ failingTurn [] getUpdatesConflictError 1 None;
    failingTurn [delivery 1001; delivery 1002] getUpdatesConflictError 2 None ].

(** A conflict whose backoff sleep is cut short by cancellation after
    100 ms; a further turn is available but must not be played. *)
Definition conflictThenCancelledSleep : list Iteration :=
  [ failingTurn [] getUpdatesConflictError 1 (Some 100%Q);
    failingTurn [delivery 7] fetchFailedError 2 None ].

Definition fatalTurn : Iteration := failingTurn [] unauthorizedError 1 None.

Definition conflictTurn : Iteration := failingTurn [] getUpdatesConflictError 1 None.

Definition conflictTurnCutShort : Iteration :=
  failingTurn [] getUpdatesConflictError 1 (Some 100%Q).

End Scenarios.

(* ================================================================= *)
(** ** Vocabulary for startup: reconciliation and the legacy record *)

Module Startup.

Import JsString Classifier Monitor Checkpoint Turn.
Local Open Scope string_scope.

(** The stored fingerprint is present and is not the current one. *)
Definition fingerprintDiffers (opts : Options) (stored : OffsetStore.StoredState) : Prop :=
  exists h, OffsetStore.tokenHash stored = Some h /\ h <> EmptyString /\ h <> tokenHash opts.

(** The probe succeeds and returns the events with the ids [ids]. *)
Definition probeReturns (reply : ProbeReply) (ids : list Z) : Prop :=
  exists status text,
    reply = ProbeAnswers true status
              (Some {| json_ok := true; json_description := text;
                       json_result := Some (map IdNumber ids) |}).

(** The request throws, or the HTTP status or the body is not ok. *)
Definition probeFails (reply : ProbeReply) : Prop :=
  match reply with
  | ProbeThrows _ => True
  | ProbeAnswers res_ok _ json =>
      res_ok && match json with Some j => json_ok j | None => false end = false
  end.

Definition catchUpFailureLine (e : Effect) : bool :=
  match e with
  | ELog (LogCatchUpStatus _ _) | ELog (LogCatchUpFailed _) => true
  | _ => false
  end.

Definition fetches (t : list Effect) : list (string * Z) :=
  flat_map (fun e => match e with EFetch url ms => [(url, ms)] | _ => [] end) t.

(** The events startup can leave in the trace. *)
Definition startupEvent (e : Effect) : bool :=
  match e with
  | EStoreRead _ | EStoreWrite _ _ _ | EFetch _ _ | ELog _ | EAssign _
  | ECreateBot _ => true
  | _ => false
  end.

(** The outcome of the store read as the monitor awaits it. *)
Definition storageError : JsVal := VPrimitive "StorageError".

Definition readOutcome (r : OffsetStore.ReadResult)
  : Outcome (option OffsetStore.StoredState) :=
  match r with
  | OffsetStore.ReadOk state => Done state
  | OffsetStore.StorageError => Raised storageError
  end.

(** Samples. *)
Definition legacyFile : OffsetStore.StateFile :=
  OffsetStore.Holds {| OffsetStore.version := 1;
                       OffsetStore.recLastUpdateId := Some 123%Z;
                       OffsetStore.recTokenHash := None |}.

Definition legacyState : OffsetStore.StoredState :=
  {| OffsetStore.lastUpdateId := Some 123%Z; OffsetStore.tokenHash := None |}.

Definition staleState : OffsetStore.StoredState :=
  {| OffsetStore.lastUpdateId := Some 500%Z; OffsetStore.tokenHash := Some "h-previous" |}.

Definition probeAnswer (ids : list Z) : ProbeReply :=
  ProbeAnswers true 200
    (Some {| json_ok := true; json_description := None;
             json_result := Some (map IdNumber ids) |}).

Definition worldWith (read : Outcome (option OffsetStore.StoredState))
    (reply : ProbeReply) (backfill : option JsVal) : World :=
  {| storeRead := read; probe := reply; backfillThrows := backfill;
     webhookThrows := None; runs := [] |}.

End Startup.

(* ================================================================= *)
(** ** The token of the entry point and further readings of the trace *)

Module Entry.

Import JsString Classifier Backoff Monitor Checkpoint Turn Startup.
Local Open Scope string_scope.

(** White space and line terminators of [String.prototype.trim] among
    the 8-bit characters: tab, line feed, vertical tab, form feed,
    carriage return, space and the no-break space U+00A0. *)
Definition isWhitespace (c : ascii) : bool :=
  let n := nat_of_ascii c in
  ((9 <=? n)%nat && (n <=? 13)%nat) || (n =? 32)%nat || (n =? 160)%nat.

Fixpoint trimStart (s : string) : string :=
  match s with
  | EmptyString => EmptyString
  | String c rest => if isWhitespace c then trimStart rest else s
  end.

Fixpoint trimEnd (s : string) : string :=
  match s with
  | EmptyString => EmptyString
  | String c rest =>
      let kept := trimEnd rest in
      if isWhitespace c && isEmpty kept then EmptyString else String c kept
  end.

(** [String.prototype.trim]. *)
Definition trim (s : string) : string := trimEnd (trimStart s).

(** Line 112: [opts.token?.trim() || account.token]. *)
Definition resolveToken (optsToken : option string) (accountToken : string) : string :=
  match optsToken with
  | Some t => if isEmpty (trim t) then accountToken else trim t
  | None => accountToken
  end.

Fixpoint allWhitespace (s : string) : bool :=
  match s with
  | EmptyString => true
  | String c rest => isWhitespace c && allWhitespace rest
  end.

(** [opts.token] is absent or holds white space only. *)
Definition blank (optsToken : option string) : bool :=
  match optsToken with
  | Some t => allWhitespace t
  | None => true
  end.

Definition retryDelays (t : list Effect) : list Q :=
  flat_map (fun e => match e with ELog (LogRetry _ _ d) => [d] | _ => [] end) t.

Definition botsCreated (t : list Effect) : list (option Z) :=
  flat_map (fun e => match e with ECreateBot seed => [seed] | _ => [] end) t.

Definition webhooksStarted (t : list Effect) : nat :=
  List.length (filter (fun e => match e with EStartWebhook => true | _ => false end) t).

(** A store write for the account and with the fingerprint of the call. *)
Definition currentWrite (opts : Options) (e : Effect) : bool :=
  match e with
  | EStoreWrite account _ hash =>
      String.eqb account (accountId opts) && String.eqb hash (tokenHash opts)
  | _ => true
  end.

(** A turn whose worker fails recoverably with cancellation inactive and
    whose backoff sleep runs to its end undisturbed. *)
Definition restartingTurn (env : Collaborators) (turn : Iteration) : bool :=
  negb (abortWhileRunning turn) &&
  match taskEnd turn with
  | Some err => match classify env err with fatal => false | _ => true end
  | None => false
  end &&
  match sleepRejects (backoffSleep turn) with Some _ => false | None => true end &&
  negb (abortFiredMeanwhile (backoffSleep turn)).

(** The update ids among the entries of a probe answer that are finite
    numbers have [m] as their maximum. *)
Definition isMaximumFiniteId (m : Z) (entries : list UpdateIdField) : Prop :=
  In (IdNumber m) entries /\ forall n, In (IdNumber n) entries -> (n <= m)%Z.

(** The events reconciliation can leave in the trace. *)
Definition reconcileEvent (e : Effect) : bool :=
  match e with
  | EStoreWrite _ _ _ | EFetch _ _ | ELog _ | EAssign _ => true
  | _ => false
  end.

(** [storedState?.lastUpdateId ?? null]. *)
Definition storedId (stored : option OffsetStore.StoredState) : option Z :=
  match stored with
  | Some s => OffsetStore.lastUpdateId s
  | None => None
  end.

(** The session once the stored state has been read and the checkpoint
    initialised from it (lines 123-126). *)
Definition afterRead (opts : Options) (stored : option OffsetStore.StoredState)
    (st : Session) : Session :=
  {| lastUpdateId := storedId stored;
     restartAttempts := restartAttempts st;
     aborted := aborted st;
     trace := trace st ++ [EStoreRead (accountId opts); EAssign (storedId stored)] |}.

(** The ids written so far are in strictly increasing order and none
    exceeds the checkpoint in memory. *)
Definition writesInOrder (s : Session) : Prop :=
  StronglySorted Z.lt (storeWrites (trace s)) /\
  forall x, In x (storeWrites (trace s)) ->
            exists c, lastUpdateId s = Some c /\ (x <= c)%Z.

(** Since [base], either nothing was written and the checkpoint is
    unchanged, or the checkpoint is the id of the last write issued. *)
Definition tracksWrites (base s : Session) : Prop :=
  (storeWrites (trace s) = storeWrites (trace base) /\
   lastUpdateId s = lastUpdateId base) \/
  (exists earlier id,
     storeWrites (trace s) = (storeWrites (trace base) ++ earlier ++ [id])%list /\
     lastUpdateId s = Some id).

(** A formatter that wraps the rendering of another in more text. *)
Definition wrapped (before after : string) (fmt : JsVal -> string) : JsVal -> string :=
  fun err => before ++ fmt err ++ after.

(** Every worker of the trace is started rested: the first when [rested]
    says so, every other one after a backoff sleep that came after the
    worker before it. *)
Fixpoint startsRested (rested : bool) (t : list Effect) : bool :=
  match t with
  | [] => true
  | ERunWorker :: rest => rested && startsRested false rest
  | ESleep _ _ :: rest => startsRested true rest
  | _ :: rest => startsRested rested rest
  end.

(** Whether a worker may be started once the trace has been played. *)
Fixpoint restedAfter (rested : bool) (t : list Effect) : bool :=
  match t with
  | [] => rested
  | ERunWorker :: rest => restedAfter false rest
  | ESleep _ _ :: rest => restedAfter true rest
  | _ :: rest => restedAfter rested rest
  end.

Definition webhookOptions : Options :=
  {| token := "123:abc"; accountId := "default"; tokenHash := "h-current";
     useWebhook := true |}.

Definition currentState : OffsetStore.StoredState :=
  {| OffsetStore.lastUpdateId := Some 500%Z; OffsetStore.tokenHash := Some "h-current" |}.

End Entry.

(* ================================================================= *)
(** * Properties *)

(** ** Strings: substring search against its declarative reading *)

Module JsStringFacts.

Import JsString.
Local Open Scope string_scope.

Lemma append_assoc (a b c : string) : (a ++ b) ++ c = a ++ b ++ c.
Proof. induction a as [|x a IH]; simpl; [reflexivity | now rewrite IH]. Qed.

Lemma append_empty_r (a : string) : a ++ EmptyString = a.
Proof. induction a as [|x a IH]; simpl; [reflexivity | now rewrite IH]. Qed.

Lemma startsWith_iff (needle hay : string) :
  startsWith needle hay = true <-> exists rest, hay = needle ++ rest.
Proof.
  revert hay; induction needle as [|a n IH]; intros hay.
  - simpl. split; [intros _; now exists hay | reflexivity].
  - destruct hay as [|b h]; simpl.
    + split; [discriminate | intros [rest H]; discriminate].
    + rewrite andb_true_iff, Ascii.eqb_eq, IH. split.
      * intros [-> [rest ->]]. now exists rest.
      * intros [rest H]. injection H as -> ->. split; [reflexivity | now exists rest].
Qed.

Lemma includes_iff (needle hay : string) :
  includes needle hay = true <->
  exists before after, hay = before ++ needle ++ after.
Proof.
  induction hay as [|c h IH].
  - simpl. rewrite orb_false_r, startsWith_iff. split.
    + intros [rest H]. now exists EmptyString, rest.
    + intros [before [after H]]. destruct before; [now exists after | discriminate].
  - simpl includes. rewrite orb_true_iff, startsWith_iff, IH. split.
    + intros [[rest H] | [before [after H]]].
      * now exists EmptyString, rest.
      * exists (String c before), after. simpl. now rewrite H.
    + intros [before [after H]]. destruct before as [|b before]; simpl in H.
      * left. now exists after.
      * right. injection H as _ ->. now exists before, after.
Qed.

Lemma toLowerCase_app (a b : string) :
  toLowerCase (a ++ b) = toLowerCase a ++ toLowerCase b.
Proof. induction a as [|x a IH]; simpl; [reflexivity | now rewrite IH]. Qed.

Lemma toLowerCase_split (s a b : string) :
  toLowerCase s = a ++ b ->
  exists s1 s2, s = s1 ++ s2 /\ toLowerCase s1 = a /\ toLowerCase s2 = b.
Proof.
  revert s; induction a as [|x a IH]; intros s H.
  - exists EmptyString, s. now simpl in *.
  - destruct s as [|c s]; simpl in H; [discriminate|].
    injection H as Hc Hs. destruct (IH _ Hs) as [s1 [s2 [-> [H1 H2]]]].
    exists (String c s1), s2. simpl. now rewrite Hc, H1, H2.
Qed.

(** Searching the lower-cased text is containment up to case. *)
Lemma includes_toLowerCase_iff (needle text : string) :
  includes needle (toLowerCase text) = true <-> containsIgnoringCase needle text.
Proof.
  rewrite includes_iff. unfold containsIgnoringCase. split.
  - intros [before [after H]].
    destruct (toLowerCase_split _ _ _ H) as [s1 [s23 [-> [_ H23]]]].
    destruct (toLowerCase_split _ _ _ H23) as [s2 [s3 [-> [H2 _]]]].
    now exists s1, s2, s3.
  - intros [before [piece [after [-> <-]]]].
    exists (toLowerCase before), (toLowerCase after).
    now rewrite !toLowerCase_app.
Qed.

(** A needle without the separator that starts inside the left part of
    [left ++ sep ++ right] lies within the left part. *)
Lemma prefix_stays_left (sep : ascii) (needle left right rest : string) :
  occurs sep needle = false ->
  needle ++ rest = left ++ String sep right ->
  exists rest', left = needle ++ rest'.
Proof.
  revert left; induction needle as [|a n IH]; intros left Hsep H.
  - now exists left.
  - simpl in Hsep. apply orb_false_iff in Hsep as [Ha Hn].
    destruct left as [|b l]; simpl in H; injection H as Hab Hrest.
    + subst. now rewrite Ascii.eqb_refl in Ha.
    + subst. destruct (IH _ Hn Hrest) as [rest' ->]. now exists rest'.
Qed.

Lemma includes_around_separator (sep : ascii) (needle left right : string) :
  occurs sep needle = false ->
  includes needle (left ++ String sep right) =
  includes needle left || includes needle right.
Proof.
  intros Hsep. apply eq_true_iff_eq.
  rewrite orb_true_iff, !includes_iff. split.
  - intros [before [after H]]. revert before H.
    induction left as [|c l IH]; intros before H; simpl in H.
    + destruct before as [|b before]; simpl in H.
      * destruct needle as [|a n]; simpl in *.
        -- left. now exists EmptyString, EmptyString.
        -- injection H as <- _. now rewrite Ascii.eqb_refl in Hsep.
      * injection H as _ ->. right. now exists before, after.
    + destruct before as [|b before]; simpl in H.
      * left. change (String c (l ++ String sep right))
          with (String c l ++ String sep right) in H.
        symmetry in H. destruct (prefix_stays_left _ _ _ _ _ Hsep H) as [rest' ->].
        now exists EmptyString, rest'.
      * injection H as <- H. destruct (IH _ H) as [[b' [a' ->]] | R].
        -- left. now exists (String c b'), a'.
        -- now right.
  - intros [[before [after ->]] | [before [after ->]]].
    + exists before, (after ++ String sep right). now rewrite !append_assoc.
    + exists (left ++ String sep before), after. now rewrite !append_assoc.
Qed.

(** [join] puts the separator between the parts, so a needle that does
    not contain it is found in the joined text exactly when it is found in
    one of the parts. *)
Lemma includes_join (sep : ascii) (needle : string) (parts : list string) :
  occurs sep needle = false ->
  needle <> EmptyString ->
  includes needle (join (String sep EmptyString) parts) =
  existsb (includes needle) parts.
Proof.
  intros Hsep Hne. induction parts as [|p rest IH].
  - destruct needle; [congruence | reflexivity].
  - destruct rest as [|q rest].
    + simpl. now rewrite orb_false_r.
    + change (join (String sep EmptyString) (p :: q :: rest))
        with (p ++ String sep (join (String sep EmptyString) (q :: rest))).
      rewrite includes_around_separator by assumption.
      now rewrite IH.
Qed.

Lemma toLowerCase_join (sep : ascii) (parts : list string) :
  lowerAscii sep = sep ->
  toLowerCase (join (String sep EmptyString) parts) =
  join (String sep EmptyString) (map toLowerCase parts).
Proof.
  intros Hs. induction parts as [|p rest IH]; [reflexivity|].
  destruct rest as [|q rest]; [reflexivity|].
  change (join (String sep EmptyString) (p :: q :: rest))
    with (p ++ String sep (join (String sep EmptyString) (q :: rest))).
  change (join (String sep EmptyString) (map toLowerCase (p :: q :: rest)))
    with (toLowerCase p ++ String sep (join (String sep EmptyString) (map toLowerCase (q :: rest)))).
  rewrite toLowerCase_app. cbn [toLowerCase]. now rewrite Hs, IH.
Qed.

End JsStringFacts.

(** ** The failure classifier *)

Module ClassifierFacts.

Import JsString JsStringFacts Classifier Contract.
Local Open Scope string_scope.

Lemma isNot409_false (f : JsField) : isNot409 f = false <-> f = FNumber 409.
Proof.
  destruct f; simpl; try (split; [discriminate | intros H; discriminate]).
  rewrite negb_false_iff, Z.eqb_eq. split; [now intros -> | now intros [= ->]].
Qed.

Lemma In_onlyStrings (s : string) (fs : list JsField) :
  In s (onlyStrings fs) <-> In (FString s) fs.
Proof.
  unfold onlyStrings. rewrite in_flat_map. split.
  - intros [f [Hin Hs]]. destruct f; simpl in Hs; try contradiction.
    destruct Hs as [-> | []]. exact Hin.
  - intros Hin. exists (FString s). split; [exact Hin | now left].
Qed.

(** The joined, lower-cased haystack holds the endpoint name exactly when
    one of the string properties does, up to case. *)
Lemma haystack_search (fs : list JsField) :
  includes "getupdates" (toLowerCase (join " " (onlyStrings fs))) = true <->
  exists s, In (FString s) fs /\ containsIgnoringCase "getupdates" s.
Proof.
  rewrite toLowerCase_join by reflexivity.
  rewrite includes_join by (reflexivity || discriminate).
  rewrite existsb_exists. split.
  - intros [low [Hin Hinc]]. apply in_map_iff in Hin as [s [<- Hin]].
    exists s. split; [now apply In_onlyStrings | now apply includes_toLowerCase_iff].
  - intros [s [Hin Hc]]. exists (toLowerCase s). split.
    + apply in_map. now apply In_onlyStrings.
    + now apply includes_toLowerCase_iff.
Qed.

Lemma isGetUpdatesConflict_iff (err : JsVal) :
  isGetUpdatesConflict err = true <-> duplicatePollerSignal err.
Proof.
  unfold duplicatePollerSignal, pollerSignalIn, searchedFields.
  destruct err as [| repr | typed].
  - split; [discriminate | now intros [t [s [H _]]]].
  - split; [discriminate | now intros [t [s [H _]]]].
  - change (isGetUpdatesConflict (VObject typed))
      with (if isNot409 (coalesce (error_code typed) (errorCode typed)) then false
            else includes "getupdates"
                   (toLowerCase (join " " (onlyStrings
                      [method typed; description typed; message typed])))).
    destruct (isNot409 (coalesce (error_code typed) (errorCode typed))) eqn:Hcode.
    + split; [discriminate|].
      intros [t [s [[= <-] [H409 _]]]].
      apply isNot409_false in H409. congruence.
    + apply isNot409_false in Hcode. rewrite haystack_search. split.
      * intros [s [Hin Hc]]. now exists typed, s.
      * intros [t [s [[= <-] [_ [Hin Hc]]]]]. now exists s.
Qed.

Lemma snippets_need_text :
  existsb (fun snippet => includes snippet EmptyString) NETWORK_ERROR_SNIPPETS = false.
Proof. reflexivity. Qed.

Lemma isNetworkRelatedError_iff (fmt : JsVal -> string) (err : JsVal) :
  isNetworkRelatedError fmt err = true <->
  truthy err = true /\
  exists snippet,
    In snippet NETWORK_ERROR_SNIPPETS /\ containsIgnoringCase snippet (fmt err).
Proof.
  unfold isNetworkRelatedError. destruct (truthy err); cbn [negb].
  2: { split; [discriminate | now intros [H _]]. }
  assert (E : (if isEmpty (toLowerCase (fmt err)) then false
               else existsb (fun snippet => includes snippet (toLowerCase (fmt err)))
                      NETWORK_ERROR_SNIPPETS)
              = existsb (fun snippet => includes snippet (toLowerCase (fmt err)))
                  NETWORK_ERROR_SNIPPETS).
  { destruct (toLowerCase (fmt err)) eqn:E; [now rewrite snippets_need_text | reflexivity]. }
  rewrite E, existsb_exists. split.
  - intros [sn [Hin Hinc]]. split; [reflexivity|].
    exists sn. split; [exact Hin | now apply includes_toLowerCase_iff].
  - intros [_ [sn [Hin Hc]]]. exists sn. split; [exact Hin | now apply includes_toLowerCase_iff].
Qed.

Lemma networkHiccup_iff (env : Collaborators) (err : JsVal) :
  isRecoverableTelegramNetworkError env err
  || isNetworkRelatedError (formatErrorMessage env) err = true <->
  networkHiccup env err.
Proof.
  unfold networkHiccup. now rewrite orb_true_iff, isNetworkRelatedError_iff.
Qed.

Ltac settle H :=
  match type of H with
  | true = true <-> ?P => assert P by (apply H; reflexivity)
  | false = true <-> ?P =>
      assert (~ P) by (let K := fresh in intros K; apply H in K; discriminate)
  end;
  clear H.

(** C6, as amended: the classifier is a function of the error and of the
    two collaborators alone, and its three classes partition all errors.
    An error is a [conflict] exactly when it is an object whose error code
    is 409 and whose method, description or message names the poll
    endpoint up to case; otherwise it is [recoverableNetwork] exactly when
    the transport's classifier marks it recoverable or it is truthy and
    its rendered message contains one of the seven snippets up to case;
    everything else is [fatal]. *)
Theorem classify_contract (env : Collaborators) (err : JsVal) :
  (classify env err = conflict <-> duplicatePollerSignal err) /\
  (classify env err = recoverableNetwork <->
   ~ duplicatePollerSignal err /\ networkHiccup env err) /\
  (classify env err = fatal <->
   ~ duplicatePollerSignal err /\ ~ networkHiccup env err).
Proof.
  pose proof (isGetUpdatesConflict_iff err) as Hc.
  pose proof (networkHiccup_iff env err) as Hn.
  unfold classify.
  destruct (isGetUpdatesConflict err);
    destruct (isRecoverableTelegramNetworkError env err);
    destruct (isNetworkRelatedError (formatErrorMessage env) err);
    cbn [negb andb orb] in *; settle Hc; settle Hn;
    intuition congruence.
Qed.

(** C6, counterexample: a 409 whose method and description are absent and
    whose message alone names the poll endpoint is classified as a
    conflict. *)
Lemma conflict_found_in_message :
  classify plainCollaborators conflictInMessageOnly = conflict /\
  ~ pollerSignalIn methodOrDescription conflictInMessageOnly.
Proof.
  split; [reflexivity|].
  intros [typed [s [E [_ [Hin _]]]]].
  injection E as <-. simpl in Hin.
  destruct Hin as [H | [H | []]]; discriminate.
Qed.

Example classify_grammy_conflict :
  classify plainCollaborators getUpdatesConflictError = conflict.
Proof. reflexivity. Qed.

Example classify_fetch_failed :
  classify plainCollaborators fetchFailedError = recoverableNetwork.
Proof. reflexivity. Qed.

Example classify_unauthorized :
  classify plainCollaborators unauthorizedError = fatal.
Proof. reflexivity. Qed.

End ClassifierFacts.

(** ** The checkpoint callback *)

Module CheckpointFacts.

Import Monitor Checkpoint.
Local Open Scope Z_scope.

Lemma persist_skips (opts : Options) (d : Delivery) (st : Session) (last : Z) :
  lastUpdateId st = Some last ->
  updateId d <= last ->
  persistUpdateId opts d st = (Done tt, st).
Proof.
  intros Hlast Hle. unfold persistUpdateId, bind, readLastUpdateId.
  rewrite Hlast. apply Z.leb_le in Hle. now rewrite Hle.
Qed.

Lemma persist_body (opts : Options) (d : Delivery) (st : Session) :
  match lastUpdateId st with
  | Some last => (updateId d <=? last)
  | None => false
  end = false ->
  persistUpdateId opts d st = (Done tt, advanced opts d st).
Proof.
  intros Hguard. unfold persistUpdateId, bind, readLastUpdateId.
  rewrite Hguard. unfold advanced, persistLog, assign, tryCatch,
    writeTelegramUpdateOffset, bind, emit, log, emit, ret, raise.
  destruct (writeThrows d); cbn; now rewrite <- !app_assoc.
Qed.

Lemma persist_advances (opts : Options) (d : Delivery) (st : Session) (last : Z) :
  lastUpdateId st = Some last ->
  last < updateId d ->
  persistUpdateId opts d st = (Done tt, advanced opts d st).
Proof.
  intros Hlast Hlt. apply persist_body. rewrite Hlast. now apply Z.leb_gt.
Qed.

Lemma persist_first (opts : Options) (d : Delivery) (st : Session) :
  lastUpdateId st = None ->
  persistUpdateId opts d st = (Done tt, advanced opts d st).
Proof. intros Hnone. apply persist_body. now rewrite Hnone. Qed.

(** Either way the callback returns normally. *)
Lemma persist_returns (opts : Options) (d : Delivery) (st : Session) :
  fst (persistUpdateId opts d st) = Done tt.
Proof.
  destruct (match lastUpdateId st with
            | Some last => (updateId d <=? last)
            | None => false
            end) eqn:G.
  - destruct (lastUpdateId st) as [last|] eqn:E; [|discriminate].
    apply Z.leb_le in G. now rewrite (persist_skips opts d st _ E G).
  - now rewrite (persist_body opts d st G).
Qed.

Lemma persist_checkpoint (opts : Options) (d : Delivery) (st : Session) :
  lastUpdateId (snd (persistUpdateId opts d st)) =
  Some (match lastUpdateId st with
        | Some last => Z.max last (updateId d)
        | None => updateId d
        end).
Proof.
  destruct (lastUpdateId st) as [last|] eqn:E.
  - destruct (Z.le_gt_cases (updateId d) last) as [Hle | Hgt].
    + rewrite (persist_skips opts d st _ E Hle). cbn. rewrite E. f_equal. lia.
    + rewrite (persist_advances opts d st _ E Hgt). cbn. f_equal. lia.
  - now rewrite (persist_first opts d st E).
Qed.

Lemma forEach_cons (opts : Options) (d : Delivery) (ds : list Delivery) (st : Session) :
  forEach (d :: ds) (persistUpdateId opts) st =
  forEach ds (persistUpdateId opts) (snd (persistUpdateId opts d st)).
Proof.
  cbn [forEach]. unfold bind at 1.
  pose proof (persist_returns opts d st) as R.
  destruct (persistUpdateId opts d st) as [[[]|e] st']; [reflexivity | discriminate].
Qed.

Lemma deliveries_return (opts : Options) (ds : list Delivery) (st : Session) :
  fst (forEach ds (persistUpdateId opts) st) = Done tt.
Proof.
  revert st; induction ds as [|d ds IH]; intros st; [reflexivity|].
  rewrite forEach_cons. apply IH.
Qed.

Lemma isMaximumSeen_step (initial : option Z) (id : Z) (ids : list Z) (final : option Z) :
  isMaximumSeen
    (Some (match initial with Some last => Z.max last id | None => id end))
    ids final ->
  isMaximumSeen initial (id :: ids) final.
Proof.
  unfold isMaximumSeen, isMaximumOf, candidates.
  destruct final as [m|]; [|discriminate].
  intros [Hin Hmax]. destruct initial as [last|].
  - split.
    + destruct Hin as [<- | Hin]; [|now right; right].
      destruct (Z.max_spec last id) as [[_ ->] | [_ ->]]; [right; now left | now left].
    + intros x [<- | [<- | Hx]].
      * specialize (Hmax _ (or_introl eq_refl)). lia.
      * specialize (Hmax _ (or_introl eq_refl)). lia.
      * apply Hmax. now right.
  - split; [exact Hin | exact Hmax].
Qed.

Lemma delivered_maximum (opts : Options) (ds : list Delivery) (st : Session) :
  isMaximumSeen (lastUpdateId st) (map updateId ds)
                (lastUpdateId (delivered opts ds st)).
Proof.
  unfold delivered. revert st; induction ds as [|d ds IH]; intros st.
  - cbn. unfold isMaximumSeen, isMaximumOf, candidates.
    destruct (lastUpdateId st) as [last|]; [|reflexivity].
    split; [now left | intros x [<- | []]; lia].
  - rewrite forEach_cons. cbn [map]. apply isMaximumSeen_step.
    rewrite <- (persist_checkpoint opts). apply IH.
Qed.

Lemma persist_cases (opts : Options) (d : Delivery) (st : Session) :
  (match lastUpdateId st with
   | Some last => (updateId d <=? last)
   | None => false
   end = true /\ persistUpdateId opts d st = (Done tt, st)) \/
  (match lastUpdateId st with
   | Some last => (updateId d <=? last)
   | None => false
   end = false /\ persistUpdateId opts d st = (Done tt, advanced opts d st)).
Proof.
  destruct (match lastUpdateId st with
            | Some last => (updateId d <=? last)
            | None => false
            end) eqn:G.
  - left. split; [reflexivity|].
    destruct (lastUpdateId st) as [last|] eqn:E; [|discriminate].
    apply Z.leb_le in G. exact (persist_skips opts d st last E G).
  - right. split; [reflexivity | exact (persist_body opts d st G)].
Qed.

Lemma delivered_cons (opts : Options) (d : Delivery) (ds : list Delivery) (st : Session) :
  delivered opts (d :: ds) st = delivered opts ds (snd (persistUpdateId opts d st)).
Proof. unfold delivered. now rewrite forEach_cons. Qed.

Lemma delivered_aborted (opts : Options) (ds : list Delivery) (st : Session) :
  aborted (delivered opts ds st) = aborted st.
Proof.
  revert st; induction ds as [|d ds IH]; intros st; [reflexivity|].
  rewrite delivered_cons, IH.
  destruct (persist_cases opts d st) as [[_ ->] | [_ ->]]; reflexivity.
Qed.

Lemma delivered_restartAttempts (opts : Options) (ds : list Delivery) (st : Session) :
  restartAttempts (delivered opts ds st) = restartAttempts st.
Proof.
  revert st; induction ds as [|d ds IH]; intros st; [reflexivity|].
  rewrite delivered_cons, IH.
  destruct (persist_cases opts d st) as [[_ ->] | [_ ->]]; reflexivity.
Qed.

Lemma delivered_trace (opts : Options) (ds : list Delivery) (st : Session) :
  trace (delivered opts ds st) =
  (trace st ++ persistTrace opts (lastUpdateId st) ds)%list.
Proof.
  revert st; induction ds as [|d ds IH]; intros st.
  - cbn. now rewrite app_nil_r.
  - rewrite delivered_cons, IH. cbn [persistTrace].
    destruct (persist_cases opts d st) as [[-> ->] | [-> ->]]; cbn [snd].
    + reflexivity.
    + cbn [advanced trace lastUpdateId]. now rewrite <- !app_assoc.
Qed.

End CheckpointFacts.

(** ** The restart loop, one turn at a time *)

Module LoopFacts.

Import JsString Classifier Backoff Monitor Checkpoint CheckpointFacts Turn.
Local Open Scope nat_scope.

Lemma bind_done {A B} (m : Eff A) (k : A -> Eff B) (st st' : Session) (a : A) :
  m st = (Done a, st') -> bind m k st = k a st'.
Proof. intros H. unfold bind. now rewrite H. Qed.

Lemma forEach_delivered (opts : Options) (ds : list Delivery) (st : Session) :
  forEach ds (persistUpdateId opts) st = (Done tt, delivered opts ds st).
Proof.
  unfold delivered. pose proof (deliveries_return opts ds st) as R.
  destruct (forEach ds (persistUpdateId opts) st) as [o st']. cbn in *. now subst.
Qed.

Lemma loop_stops_when_cancelled (env : Collaborators) (opts : Options)
    (script : list Iteration) (st : Session) :
  aborted st = true ->
  pollLoop env opts script st = (Done Returned, st).
Proof.
  intros Hab. destruct script; cbn [pollLoop]; unfold bind at 1, isAborted;
    now rewrite Hab.
Qed.

Lemma loop_out_of_turns (env : Collaborators) (opts : Options) (st : Session) :
  aborted st = false ->
  pollLoop env opts [] st = (Done WorkerPending, extend st [ERunWorker]).
Proof.
  intros Hab. cbn [pollLoop]. unfold bind at 1, isAborted. now rewrite Hab.
Qed.

Ltac run_eff :=
  unfold bind, tryCatch, awaitSleep, abortFires, log, emit, ret, raise,
    isAborted, bumpRestartAttempts, afterSleep, backingOff, cancel, extend.

(** One turn of the loop, phase by phase. *)
Lemma loop_turn (env : Collaborators) (opts : Options)
    (turn : Iteration) (later : list Iteration) (st : Session) :
  aborted st = false ->
  pollLoop env opts (turn :: later) st =
  let st1 := afterWorker opts turn st in
  match taskEnd turn with
  | None => (Done Returned, st1)
  | Some err =>
      if aborted st1 then (Raised err, st1)
      else
        match classify env err with
        | fatal => (Raised err, st1)
        | _ =>
            let st3 := afterSleep (backoffSleep turn) (backingOff env err turn st1) in
            match sleepRejects (backoffSleep turn) with
            | None => pollLoop env opts later st3
            | Some sleepErr =>
                if aborted st3 then (Done Returned, st3) else (Raised sleepErr, st3)
            end
        end
  end.
Proof.
  intros Hab. cbn [pollLoop]. unfold bind at 1, isAborted. rewrite Hab.
  unfold bind at 1. cbn [emit].
  change {| lastUpdateId := lastUpdateId st; restartAttempts := restartAttempts st;
            aborted := aborted st; trace := trace st ++ [ERunWorker] |}
    with (extend st [ERunWorker]).
  rewrite (bind_done _ _ _ _ _ (forEach_delivered opts (deliveries turn) _)).
  unfold afterWorker.
  set (st0 := delivered opts (deliveries turn) (extend st [ERunWorker])).
  assert (Hab0 : aborted st0 = false)
    by (unfold st0; now rewrite delivered_aborted).
  clearbody st0.
  destruct (abortWhileRunning turn).
  - destruct (taskEnd turn) as [err|]; run_eff; cbn; now rewrite <- ?app_assoc.
  - destruct (taskEnd turn) as [err|]; run_eff; cbn; [|reflexivity].
    rewrite Hab0.
    destruct (classify env err) eqn:Hcls; [| |reflexivity];
      destruct (backoffSleep turn) as [[sleepErr|] [|] elapsed];
      run_eff; cbn; unfold backoffDelay; cbn;
      rewrite <- ?app_assoc; cbn; rewrite ?Hab0; reflexivity.
Qed.

(** A property that holds once the first worker has been started (or of
    the session itself when the loop finds cancellation active) and that
    the four ways the loop changes the session preserve, holds when the
    loop is left. *)
Lemma loop_invariant_from_start (env : Collaborators) (opts : Options)
    (P : Session -> Prop) :
  (forall st, aborted st = false -> P st -> P (extend st [ERunWorker])) ->
  (forall st ds, P st -> P (delivered opts ds st)) ->
  (forall st, P st -> P (cancel st [EAbortFired; EStopWorker])) ->
  (forall st err turn, aborted st = false -> P st -> P (backingOff env err turn st)) ->
  forall script st,
    (aborted st = false -> P (extend st [ERunWorker])) ->
    (aborted st = true -> P st) ->
    P (snd (pollLoop env opts script st)).
Proof.
  intros Hrun Hdel Hstop Hback.
  assert (Hsleep : forall s st, P st -> P (afterSleep s st)).
  { intros s st HP. unfold afterSleep.
    destruct (abortFiredMeanwhile s); [now apply Hstop | exact HP]. }
  induction script as [|turn later IH]; intros st Hfresh Hstopped;
    destruct (aborted st) eqn:Hab.
  - rewrite loop_stops_when_cancelled by assumption. now apply Hstopped.
  - rewrite loop_out_of_turns by assumption. now apply Hfresh.
  - rewrite loop_stops_when_cancelled by assumption. now apply Hstopped.
  - rewrite loop_turn by assumption. cbv zeta.
    assert (H1 : P (afterWorker opts turn st)).
    { unfold afterWorker.
      destruct (abortWhileRunning turn); [apply Hstop|]; now apply Hdel, Hfresh. }
    destruct (taskEnd turn) as [err|]; [|exact H1].
    destruct (aborted (afterWorker opts turn st)) eqn:Hab1; [exact H1|].
    pose proof (Hsleep (backoffSleep turn) _ (Hback _ err turn Hab1 H1)) as H3.
    destruct (classify env err); try exact H1;
      (destruct (sleepRejects (backoffSleep turn));
       [ destruct (aborted (afterSleep _ _)); exact H3
       | apply IH; [intros Hab3; now apply Hrun | intros _; exact H3] ]).
Qed.

Lemma loop_invariant (env : Collaborators) (opts : Options) (P : Session -> Prop) :
  (forall st, aborted st = false -> P st -> P (extend st [ERunWorker])) ->
  (forall st ds, P st -> P (delivered opts ds st)) ->
  (forall st, P st -> P (cancel st [EAbortFired; EStopWorker])) ->
  (forall st err turn, aborted st = false -> P st -> P (backingOff env err turn st)) ->
  forall script st, P st -> P (snd (pollLoop env opts script st)).
Proof.
  intros Hrun Hdel Hstop Hback script st HP.
  apply loop_invariant_from_start; auto.
Qed.

(** The loop only ever appends to the trace. *)
Lemma loop_keeps_prefix (env : Collaborators) (opts : Options) (pre : list Effect)
    (script : list Iteration) (st : Session) :
  (aborted st = false -> exists more, (trace st ++ [ERunWorker] = pre ++ more)%list) ->
  (aborted st = true -> exists more, (trace st = pre ++ more)%list) ->
  exists more, (trace (snd (pollLoop env opts script st)) = pre ++ more)%list.
Proof.
  apply (loop_invariant_from_start env opts
           (fun s => exists more, (trace s = pre ++ more)%list)).
  - intros s _ [more E]. exists (more ++ [ERunWorker])%list. cbn. now rewrite E, app_assoc.
  - intros s ds [more E]. rewrite delivered_trace, E.
    eexists. now rewrite <- app_assoc.
  - intros s [more E]. cbn. rewrite E. eexists. now rewrite <- app_assoc.
  - intros s err turn _ [more E]. cbn. rewrite E. eexists. now rewrite <- app_assoc.
Qed.

(** Entered with cancellation inactive, the loop starts a worker first. *)
Lemma loop_starts_worker (env : Collaborators) (opts : Options)
    (script : list Iteration) (st : Session) :
  aborted st = false ->
  exists more,
    (trace (snd (pollLoop env opts script st)) = trace st ++ ERunWorker :: more)%list.
Proof.
  intros Hab.
  destruct (loop_keeps_prefix env opts (trace st ++ [ERunWorker]) script st) as [more E].
  - intros _. exists []. now rewrite app_nil_r.
  - congruence.
  - exists more. rewrite E. now rewrite <- app_assoc.
Qed.

(** *** Readings of the trace across the phases of a turn *)

Lemma persistTrace_events (opts : Options) (ds : list Delivery) (current : option Z) :
  forallb checkpointEvent (persistTrace opts current ds) = true.
Proof.
  revert current; induction ds as [|d ds IH]; intros current; [reflexivity|].
  cbn [persistTrace].
  destruct (match current with Some last => (updateId d <=? last)%Z | None => false end).
  - apply IH.
  - cbn [app forallb checkpointEvent andb]. rewrite forallb_app, IH.
    unfold persistLog. now destruct (writeThrows d).
Qed.

Lemma quiet_checkpoint_events (fired : bool) (t : list Effect) :
  forallb checkpointEvent t = true ->
  quietAfterAbort fired t = true /\ abortSeen t = false.
Proof.
  induction t as [|e t IH]; [now split|].
  cbn [forallb]. intros H. apply andb_true_iff in H as [He Ht].
  destruct (IH Ht) as [Hq Hs].
  destruct e as [| | |[]|[]| | | | | | |]; cbn in He; try discriminate; now split.
Qed.

Lemma quietAfterAbort_app (fired : bool) (a b : list Effect) :
  quietAfterAbort fired (a ++ b) =
  quietAfterAbort fired a && quietAfterAbort (fired || abortSeen a) b.
Proof.
  revert fired; induction a as [|e a IH]; intros fired.
  - cbn. now rewrite orb_false_r.
  - destruct e; cbn [app quietAfterAbort abortSeen existsb orb];
      rewrite ?IH; fold (abortSeen a);
      rewrite ?orb_true_r, ?orb_true_l, ?orb_false_l, ?andb_assoc; reflexivity.
Qed.

Lemma abortSeen_app (a b : list Effect) :
  abortSeen (a ++ b) = abortSeen a || abortSeen b.
Proof. unfold abortSeen. apply existsb_app. Qed.

Lemma backoffAttempts_app (a b : list Effect) :
  backoffAttempts (a ++ b) = (backoffAttempts a ++ backoffAttempts b)%list.
Proof. unfold backoffAttempts. apply flat_map_app. Qed.

Lemma sleeps_app (a b : list Effect) :
  sleeps (a ++ b) = (sleeps a ++ sleeps b)%list.
Proof. unfold sleeps. apply flat_map_app. Qed.

Lemma workersStarted_app (a b : list Effect) :
  workersStarted (a ++ b) = workersStarted a + workersStarted b.
Proof. unfold workersStarted. now rewrite filter_app, length_app. Qed.

Lemma checkpoint_events_readings (t : list Effect) :
  forallb checkpointEvent t = true ->
  backoffAttempts t = [] /\ sleeps t = [] /\ workersStarted t = 0.
Proof.
  induction t as [|e t IH]; [now repeat split|].
  cbn [forallb]. intros H. apply andb_true_iff in H as [He Ht].
  destruct (IH Ht) as [Hb [Hs Hw]].
  destruct e as [| | |[]|[]| | | | | | |]; cbn in He; try discriminate;
    (repeat split; [exact Hb | exact Hs | exact Hw]).
Qed.

Lemma afterWorker_aborted (opts : Options) (turn : Iteration) (st : Session) :
  aborted (afterWorker opts turn st) = aborted st || abortWhileRunning turn.
Proof.
  unfold afterWorker. destruct (abortWhileRunning turn); cbn.
  - now rewrite orb_true_r.
  - now rewrite delivered_aborted, orb_false_r.
Qed.

(** A turn starts exactly one worker and, up to the settling of its task,
    neither computes a backoff nor sleeps. *)
Lemma afterWorker_readings (opts : Options) (turn : Iteration) (st : Session) :
  workersStarted (trace (afterWorker opts turn st)) = S (workersStarted (trace st)) /\
  sleeps (trace (afterWorker opts turn st)) = sleeps (trace st) /\
  backoffAttempts (trace (afterWorker opts turn st)) = backoffAttempts (trace st) /\
  restartAttempts (afterWorker opts turn st) = restartAttempts st.
Proof.
  pose proof (persistTrace_events opts (deliveries turn) (lastUpdateId st)) as Hev.
  destruct (checkpoint_events_readings _ Hev) as [Hb [Hs Hw]].
  unfold afterWorker. destruct (abortWhileRunning turn); cbn [cancel trace restartAttempts];
    rewrite delivered_trace, delivered_restartAttempts; cbn [extend trace lastUpdateId restartAttempts];
    rewrite ?workersStarted_app, ?sleeps_app, ?backoffAttempts_app, Hb, Hs, Hw;
    cbn; rewrite ?app_nil_r; repeat split; lia.
Qed.

End LoopFacts.


(* ================================================================= *)
(** ** Startup: the reconciler and the legacy record *)

Module StartupFacts.

Import JsString JsStringFacts Classifier Monitor Checkpoint Turn Startup LoopFacts.
Local Open Scope string_scope.

Lemma fold_max_is_maximum (others : list Z) (first : Z) :
  isMaximumOf (fold_left Z.max others first) (first :: others).
Proof.
  revert first; induction others as [|x others IH]; intros first.
  - cbn. split; [now left | intros y [<- | []]; lia].
  - cbn [fold_left]. destruct (IH (Z.max first x)) as [Hin Hmax]. split.
    + destruct Hin as [E | Hin]; [|now right; right].
      destruct (Z.max_spec first x) as [[_ M] | [_ M]]; rewrite M in *.
      * right. now left.
      * now left.
    + intros y [<- | [<- | Hy]].
      * specialize (Hmax _ (or_introl eq_refl)). lia.
      * specialize (Hmax _ (or_introl eq_refl)). lia.
      * apply Hmax. now right.
Qed.

Lemma maxId_is_maximum (ids : list Z) :
  isMaximumSeen None ids (maxId ids).
Proof.
  destruct ids as [|first others]; [reflexivity|].
  apply fold_max_is_maximum.
Qed.

Lemma finiteNumbers_of_numbers (ids : list Z) :
  finiteNumbers (map IdNumber ids) = ids.
Proof. induction ids as [|x ids IH]; [reflexivity|]. cbn. now f_equal. Qed.

Lemma tokenChanged_true (opts : Options) (stored : OffsetStore.StoredState) :
  fingerprintDiffers opts stored -> tokenChanged opts (Some stored) = true.
Proof.
  intros [h [Eh [Hne Hdiff]]]. unfold tokenChanged, truthyHash. rewrite Eh.
  apply andb_true_iff. split.
  - destruct h; [congruence | reflexivity].
  - apply negb_true_iff. now apply String.eqb_neq.
Qed.

Lemma catchUpUrl_limit (opts : Options) :
  includes "getUpdates?limit=100&timeout=0" (catchUpUrl opts) = true.
Proof.
  apply includes_iff. unfold catchUpUrl.
  exists ("https://api.telegram.org/bot" ++ token opts ++ "/"), EmptyString.
  now rewrite !append_assoc.
Qed.

Ltac run_startup :=
  unfold bind, tryCatch, fetchWithTimeout, writeTelegramUpdateOffset, assign,
    log, emit, ret, raise, readLastUpdateId.

Lemma fetches_app (a b : list Effect) :
  fetches (a ++ b) = (fetches a ++ fetches b)%list.
Proof. unfold fetches. apply flat_map_app. Qed.

(** The catch-up request was answered and both the HTTP status and the
    body are ok. *)
Lemma reconcile_probe_answered (opts : Options) (world : World)
    (stored : option OffsetStore.StoredState) (st : Session)
    (status : Z) (j : ProbeJson) :
  tokenChanged opts stored = true ->
  probe world = ProbeAnswers true status (Some j) ->
  json_ok j = true ->
  reconcile opts world stored st =
  (Done tt,
   {| lastUpdateId :=
        maxId (finiteNumbers (match json_result j with Some r => r | None => [] end));
      restartAttempts := restartAttempts st;
      aborted := aborted st;
      trace := trace st
               ++ [ELog (LogTokenChanged (accountId opts));
                   EFetch (catchUpUrl opts) 5000;
                   EAssign (maxId (finiteNumbers
                                     (match json_result j with
                                      | Some r => r
                                      | None => []
                                      end)))] |}).
Proof.
  intros Hchanged Hprobe Hok. unfold reconcile. rewrite Hchanged, Hprobe.
  run_startup. cbn. rewrite Hok. cbn. now rewrite <- !app_assoc.
Qed.

(** The catch-up request failed: the checkpoint is dropped and one line
    tells of the failure. *)
Lemma reconcile_probe_failed (opts : Options) (world : World)
    (stored : option OffsetStore.StoredState) (st : Session) :
  tokenChanged opts stored = true ->
  probeFails (probe world) ->
  exists line,
    catchUpFailureLine (ELog line) = true /\
    reconcile opts world stored st =
    (Done tt,
     {| lastUpdateId := None;
        restartAttempts := restartAttempts st;
        aborted := aborted st;
        trace := trace st
                 ++ [ELog (LogTokenChanged (accountId opts));
                     EFetch (catchUpUrl opts) 5000;
                     ELog line;
                     EAssign None] |}).
Proof.
  intros Hchanged Hfails. unfold reconcile. rewrite Hchanged.
  destruct (probe world) as [err | res_ok status json]; cbn in Hfails.
  - exists (LogCatchUpFailed err). split; [reflexivity|].
    run_startup. cbn. now rewrite <- !app_assoc.
  - eexists (LogCatchUpStatus status _). split; [reflexivity|].
    run_startup. cbn. rewrite Hfails. cbn. rewrite <- !app_assoc. reflexivity.
Qed.

(** Whatever the probe does, reconciliation after a token change returns
    normally and has made exactly one request. *)
Lemma reconcile_probe_total (opts : Options) (world : World)
    (stored : option OffsetStore.StoredState) (st : Session) :
  tokenChanged opts stored = true ->
  fst (reconcile opts world stored st) = Done tt /\
  fetches (trace (snd (reconcile opts world stored st)))
  = (fetches (trace st) ++ [(catchUpUrl opts, 5000%Z)])%list.
Proof.
  intros Hchanged.
  assert (D : probeFails (probe world) \/
              exists status j, probe world = ProbeAnswers true status (Some j) /\
                               json_ok j = true).
  { destruct (probe world) as [err | [|] status [j|]]; cbn; auto.
    destruct (json_ok j) eqn:E; [right; now exists status, j | now left]. }
  destruct D as [Hfails | [status [j [Hprobe Hok]]]].
  - destruct (reconcile_probe_failed opts world stored st Hchanged Hfails)
      as [line [_ ->]].
    cbn [fst snd trace]. split; [reflexivity|]. rewrite fetches_app. cbn.
    now destruct line.
  - rewrite (reconcile_probe_answered opts world stored st status j Hchanged Hprobe Hok).
    cbn [fst snd trace]. split; [reflexivity|]. now rewrite fetches_app.
Qed.

(** C2: when the stored fingerprint is present and differs from the
    current one, the reconciler never throws and makes exactly one
    catch-up request, for at most 100 pending updates; when the probe
    returns events the reconciled checkpoint is the maximum of their ids,
    when it returns none the checkpoint is null, and when it fails the
    checkpoint is null and a line telling of the failure is logged. *)
Theorem reconcile_after_token_change (opts : Options) (world : World)
    (stored : OffsetStore.StoredState) (st : Session) :
  fingerprintDiffers opts stored ->
  fst (reconcile opts world (Some stored) st) = Done tt /\
  fetches (trace (snd (reconcile opts world (Some stored) st)))
  = (fetches (trace st) ++ [(catchUpUrl opts, 5000%Z)])%list /\
  includes "getUpdates?limit=100&timeout=0" (catchUpUrl opts) = true /\
  (forall ids,
     probeReturns (probe world) ids ->
     match ids with
     | [] => lastUpdateId (snd (reconcile opts world (Some stored) st)) = None
     | _ => exists m,
              lastUpdateId (snd (reconcile opts world (Some stored) st)) = Some m /\
              isMaximumOf m ids
     end) /\
  (probeFails (probe world) ->
   lastUpdateId (snd (reconcile opts world (Some stored) st)) = None /\
   exists before line after,
     (trace (snd (reconcile opts world (Some stored) st))
      = trace st ++ before ++ line :: after)%list /\
     catchUpFailureLine line = true).
Proof.
  intros Hdiff. pose proof (tokenChanged_true opts stored Hdiff) as Hchanged.
  destruct (reconcile_probe_total opts world (Some stored) st Hchanged) as [Hret Hfetch].
  split; [exact Hret|]. split; [exact Hfetch|]. split; [apply catchUpUrl_limit|]. split.
  - intros ids [status [text Hprobe]].
    rewrite (reconcile_probe_answered opts world (Some stored) st status _
               Hchanged Hprobe eq_refl).
    cbn [snd lastUpdateId json_result]. rewrite finiteNumbers_of_numbers.
    pose proof (maxId_is_maximum ids) as M.
    destruct ids as [|first others]; [reflexivity|].
    eexists. split; [reflexivity | exact M].
  - intros Hfails.
    destruct (reconcile_probe_failed opts world (Some stored) st Hchanged Hfails)
      as [line [Hline ->]].
    cbn [snd lastUpdateId trace]. split; [reflexivity|].
    exists [ELog (LogTokenChanged (accountId opts)); EFetch (catchUpUrl opts) 5000],
           (ELog line), [EAssign None].
    split; [reflexivity | exact Hline].
Qed.

Lemma reconcile_after_token_change_witness :
  exists m,
    lastUpdateId
      (snd (reconcile sampleOptions
              (worldWith (Done (Some staleState)) (probeAnswer [10; 7; 15]%Z) None)
              (Some staleState) (sessionAt (Some 500%Z)))) = Some m /\
    isMaximumOf m [10; 7; 15]%Z.
Proof.
  assert (Hdiff : fingerprintDiffers sampleOptions staleState).
  { exists "h-previous". split; [reflexivity|]. split; discriminate. }
  destruct (reconcile_after_token_change sampleOptions
              (worldWith (Done (Some staleState)) (probeAnswer [10; 7; 15]%Z) None)
              staleState (sessionAt (Some 500%Z)) Hdiff)
    as [_ [_ [_ [Hreturns _]]]].
  apply (Hreturns [10; 7; 15]%Z).
  exists 200%Z, None. reflexivity.
Defined.

Example reconcile_10_7_15 :
  lastUpdateId
    (snd (reconcile sampleOptions
            (worldWith (Done (Some staleState)) (probeAnswer [10; 7; 15]%Z) None)
            (Some staleState) (sessionAt (Some 500%Z)))) = Some 15%Z.
Proof. reflexivity. Qed.

(** *** The legacy record *)

Lemma reconcile_backfills (opts : Options) (world : World)
    (stored : OffsetStore.StoredState) (id : Z) (st : Session) :
  OffsetStore.tokenHash stored = None ->
  OffsetStore.lastUpdateId stored = Some id ->
  reconcile opts world (Some stored) st
  = (Done tt, extend st [EStoreWrite (accountId opts) id (tokenHash opts)]).
Proof.
  intros Hhash Hid. unfold reconcile, tokenChanged, needsBackfill, truthyHash.
  rewrite Hhash, Hid. cbn [andb]. run_startup.
  now destruct (backfillThrows world).
Qed.

Lemma startup_backfills (opts : Options) (world : World)
    (stored : OffsetStore.StoredState) (id : Z) (st : Session) :
  isEmpty (token opts) = false ->
  storeRead world = Done (Some stored) ->
  OffsetStore.tokenHash stored = None ->
  OffsetStore.lastUpdateId stored = Some id ->
  startup opts world st
  = (Done tt,
     {| lastUpdateId := Some id;
        restartAttempts := restartAttempts st;
        aborted := aborted st;
        trace := trace st
                 ++ [EStoreRead (accountId opts);
                     EAssign (Some id);
                     EStoreWrite (accountId opts) id (tokenHash opts);
                     ECreateBot (Some id)] |}).
Proof.
  intros Htoken Hread Hhash Hid. unfold startup. rewrite Htoken.
  unfold readTelegramUpdateOffsetState. rewrite Hread.
  unfold bind at 1. unfold bind at 1. cbn [emit ret]. unfold bind at 1.
  cbn [assign]. unfold bind at 1.
  rewrite (reconcile_backfills opts world stored id _ Hhash Hid).
  run_startup. cbn. rewrite Hid. now rewrite <- !app_assoc.
Qed.

(** A store read that throws is not caught by the monitor. *)
Lemma read_failure_propagates (opts : Options) (world : World) (st : Session)
    (e : JsVal) :
  isEmpty (token opts) = false ->
  storeRead world = Raised e ->
  startup opts world st = (Raised e, extend st [EStoreRead (accountId opts)]).
Proof.
  intros Htoken Hread. unfold startup. rewrite Htoken.
  unfold readTelegramUpdateOffsetState. rewrite Hread. reflexivity.
Qed.

(** Reconciliation always returns normally, leaves the counter and the
    cancellation flag alone and appends only events of its own. *)
Lemma reconcile_frame (opts : Options) (world : World)
    (stored : option OffsetStore.StoredState) (st : Session) :
  fst (reconcile opts world stored st) = Done tt /\
  restartAttempts (snd (reconcile opts world stored st)) = restartAttempts st /\
  aborted (snd (reconcile opts world stored st)) = aborted st /\
  exists events,
    (trace (snd (reconcile opts world stored st)) = trace st ++ events)%list /\
    forallb startupEvent events = true.
Proof.
  unfold reconcile. destruct (tokenChanged opts stored).
  - destruct (probe world) as [err | [|] status [[[|] text result]|]];
      run_startup; cbn; repeat split;
      eexists; (split; [rewrite <- ?app_assoc; reflexivity | reflexivity]).
  - destruct (needsBackfill stored) as [id|]; [destruct (backfillThrows world)|];
      run_startup; cbn; repeat split;
      try (eexists; (split; [rewrite <- ?app_assoc; reflexivity | reflexivity]));
      exists []; now rewrite app_nil_r.
Qed.

(** Startup leaves the counter and the cancellation flag alone and
    appends only events of its own to the trace. *)
Lemma startup_frame (opts : Options) (world : World) (st : Session) :
  restartAttempts (snd (startup opts world st)) = restartAttempts st /\
  aborted (snd (startup opts world st)) = aborted st /\
  exists events,
    (trace (snd (startup opts world st)) = trace st ++ events)%list /\
    forallb startupEvent events = true.
Proof.
  unfold startup, readTelegramUpdateOffsetState.
  destruct (isEmpty (token opts)).
  { cbn. repeat split. exists []. now rewrite app_nil_r. }
  destruct (storeRead world) as [stored | e].
  2: { run_startup. cbn. repeat split. eexists. split; reflexivity. }
  run_startup.
  match goal with
  | |- context [reconcile opts world stored ?X] =>
      destruct (reconcile_frame opts world stored X) as [Hret [Hn [Hab [events [Ht Hev]]]]];
      destruct (reconcile opts world stored X) as [[[]|e] st2]
  end; cbn in *; try discriminate.
  repeat split; try assumption.
  rewrite Ht. eexists. split; [rewrite <- !app_assoc; reflexivity|].
  cbn. rewrite forallb_app, Hev. reflexivity.
Qed.

Lemma startup_events_readings (events : list Effect) :
  forallb startupEvent events = true ->
  backoffAttempts events = [] /\
  abortSeen events = false /\
  forall fired, quietAfterAbort fired events = true.
Proof.
  induction events as [|e events IH]; [now repeat split|].
  cbn [forallb]. intros H. apply andb_true_iff in H as [He Hrest].
  destruct (IH Hrest) as [Hb [Hs Hq]].
  destruct e; cbn in He; try discriminate; (split; [|split]); cbn; auto.
Qed.

(** C9: a version-1 record is read as its id with the fingerprint
    unknown and never as an error; and when the stored fingerprint is
    absent while an id is stored, the reconciler writes that id back with
    the current fingerprint, swallowing a failure of the write, so that
    startup goes on with the stored id. *)
Theorem legacy_record_is_backfilled (opts : Options) (world : World) :
  (forall id h,
     OffsetStore.readTelegramUpdateOffsetState
       (OffsetStore.Holds {| OffsetStore.version := 1;
                             OffsetStore.recLastUpdateId := Some id;
                             OffsetStore.recTokenHash := h |})
     = OffsetStore.ReadOk (Some {| OffsetStore.lastUpdateId := Some id;
                                   OffsetStore.tokenHash := None |})) /\
  (forall stored id st,
     OffsetStore.tokenHash stored = None ->
     OffsetStore.lastUpdateId stored = Some id ->
     reconcile opts world (Some stored) st
     = (Done tt, extend st [EStoreWrite (accountId opts) id (tokenHash opts)])) /\
  (forall stored id st,
     isEmpty (token opts) = false ->
     storeRead world = Done (Some stored) ->
     OffsetStore.tokenHash stored = None ->
     OffsetStore.lastUpdateId stored = Some id ->
     fst (startup opts world st) = Done tt /\
     lastUpdateId (snd (startup opts world st)) = Some id /\
     storeWrites (trace (snd (startup opts world st)))
     = (storeWrites (trace st) ++ [id])%list).
Proof.
  split; [|split].
  - reflexivity.
  - intros stored id st. apply reconcile_backfills.
  - intros stored id st Htoken Hread Hhash Hid.
    rewrite (startup_backfills opts world stored id st Htoken Hread Hhash Hid).
    cbn [fst snd lastUpdateId trace]. repeat split.
    unfold storeWrites. now rewrite flat_map_app.
Qed.

Lemma legacy_record_is_backfilled_witness :
  reconcile sampleOptions
    (worldWith (readOutcome (OffsetStore.readTelegramUpdateOffsetState legacyFile))
       (ProbeThrows VFalsy) (Some (VPrimitive "EACCES")))
    (Some legacyState) (sessionAt (Some 123%Z))
  = (Done tt, extend (sessionAt (Some 123%Z)) [EStoreWrite "default" 123 "h-current"]) /\
  lastUpdateId
    (snd (startup sampleOptions
            (worldWith (readOutcome (OffsetStore.readTelegramUpdateOffsetState legacyFile))
               (ProbeThrows VFalsy) (Some (VPrimitive "EACCES")))
            (sessionAt None))) = Some 123%Z.
Proof.
  destruct (legacy_record_is_backfilled sampleOptions
              (worldWith (readOutcome (OffsetStore.readTelegramUpdateOffsetState legacyFile))
                 (ProbeThrows VFalsy) (Some (VPrimitive "EACCES"))))
    as [_ [Hreconcile Hstartup]].
  split.
  - apply (Hreconcile legacyState 123%Z); reflexivity.
  - apply (Hstartup legacyState 123%Z (sessionAt None)); reflexivity.
Defined.

End StartupFacts.

(* ================================================================= *)
(** ** The supervisor: checkpoint, restart policy, counter, cancellation *)

Module Supervisor.

Import JsString Classifier Backoff Monitor Checkpoint CheckpointFacts.
Import Contract Turn Scenarios Startup LoopFacts StartupFacts.
Local Open Scope nat_scope.

(** The entry point, phase by phase. *)
Lemma monitor_phases (env : Collaborators) (opts : Options) (world : World)
    (st : Session) :
  monitorTelegramProvider env opts world st =
  match startup opts world st with
  | (Done _, st1) =>
      if useWebhook opts then
        (match webhookThrows world with
         | None => Done Returned
         | Some e => Raised e
         end, extend st1 [EStartWebhook])
      else pollLoop env opts (runs world) st1
  | (Raised e, st1) => (Raised e, st1)
  end.
Proof.
  unfold monitorTelegramProvider. unfold bind at 1.
  destruct (startup opts world st) as [[[]|e] st1]; [|reflexivity].
  destruct (useWebhook opts); [|reflexivity].
  unfold startTelegramWebhook, bind, emit, ret, raise, extend.
  now destruct (webhookThrows world).
Qed.

(** C1: after the worker has delivered any sequence of ids, the in-memory
    checkpoint is the maximum of the initial checkpoint and the delivered
    ids, and the callback never throws; a call with an id at most the
    current checkpoint changes nothing, neither in memory nor in the
    store; a call with a greater id assigns the checkpoint first and then
    issues the store write. *)
Theorem checkpoint_monotonicity (opts : Options) :
  (forall ds st,
     forEach ds (persistUpdateId opts) st = (Done tt, delivered opts ds st) /\
     isMaximumSeen (lastUpdateId st) (map updateId ds)
                   (lastUpdateId (delivered opts ds st))) /\
  (forall d st last,
     lastUpdateId st = Some last -> (updateId d <= last)%Z ->
     persistUpdateId opts d st = (Done tt, st)) /\
  (forall d st last,
     lastUpdateId st = Some last -> (last < updateId d)%Z ->
     persistUpdateId opts d st = (Done tt, advanced opts d st)).
Proof.
  split; [|split].
  - intros ds st. split; [apply forEach_delivered | apply delivered_maximum].
  - apply persist_skips.
  - apply persist_advances.
Qed.

Lemma checkpoint_monotonicity_witness :
  isMaximumSeen (Some 500%Z) [456; 501; 499]%Z
    (lastUpdateId
       (delivered sampleOptions [delivery 456; failingDelivery 501; delivery 499]
          (sessionAt (Some 500%Z)))) /\
  persistUpdateId sampleOptions (delivery 456) (sessionAt (Some 500%Z))
  = (Done tt, sessionAt (Some 500%Z)) /\
  persistUpdateId sampleOptions (delivery 501) (sessionAt (Some 500%Z))
  = (Done tt, advanced sampleOptions (delivery 501) (sessionAt (Some 500%Z))).
Proof.
  destruct (checkpoint_monotonicity sampleOptions) as [Hall [Hskip Hadvance]].
  split; [|split].
  - exact (proj2 (Hall [delivery 456; failingDelivery 501; delivery 499]
                    (sessionAt (Some 500%Z)))).
  - apply (Hskip (delivery 456) (sessionAt (Some 500%Z)) 500%Z); [reflexivity | cbn; lia].
  - apply (Hadvance (delivery 501) (sessionAt (Some 500%Z)) 500%Z); [reflexivity | cbn; lia].
Defined.

Lemma delivered_keeps_checkpoint (opts : Options) (ds : list Delivery) (st : Session) :
  lastUpdateId st <> None -> lastUpdateId (delivered opts ds st) <> None.
Proof.
  intros Hset Hnone. pose proof (delivered_maximum opts ds st) as M.
  rewrite Hnone in M. unfold isMaximumSeen, candidates in M.
  destruct (lastUpdateId st); [discriminate | congruence].
Qed.

(** C10: with no checkpoint in memory the callback accepts whatever id
    it is given, assigns it and issues the store write; and a checkpoint
    that is set stays set through every delivery and through the whole
    restart loop. *)
Theorem first_id_accepted_then_never_null (env : Collaborators) (opts : Options) :
  (forall d st,
     lastUpdateId st = None ->
     persistUpdateId opts d st = (Done tt, advanced opts d st)) /\
  (forall ds st,
     lastUpdateId st <> None -> lastUpdateId (delivered opts ds st) <> None) /\
  (forall script st,
     lastUpdateId st <> None ->
     lastUpdateId (snd (pollLoop env opts script st)) <> None).
Proof.
  split; [|split].
  - apply persist_first.
  - apply delivered_keeps_checkpoint.
  - intros script st.
    apply (loop_invariant env opts (fun s => lastUpdateId s <> None)); auto.
    intros s ds. apply delivered_keeps_checkpoint.
Qed.

Lemma first_id_accepted_then_never_null_witness :
  persistUpdateId sampleOptions (delivery (-5)) (sessionAt None)
  = (Done tt, advanced sampleOptions (delivery (-5)) (sessionAt None)) /\
  lastUpdateId (delivered sampleOptions [delivery (-7); failingDelivery 0]
                  (sessionAt (Some (-5)%Z))) <> None /\
  lastUpdateId (snd (pollLoop plainCollaborators sampleOptions
                       conflictDeliveriesConflict (sessionAt (Some 0%Z)))) <> None.
Proof.
  destruct (first_id_accepted_then_never_null plainCollaborators sampleOptions)
    as [Hfirst [Hdeliver Hloop]].
  split; [|split].
  - apply Hfirst. reflexivity.
  - apply Hdeliver. cbn. discriminate.
  - apply Hloop. cbn. discriminate.
Defined.

(** *** The restart policy *)

Lemma afterSleep_trace (sl : SleepEnd) (st : Session) :
  trace (afterSleep sl st) =
  (trace st ++ if abortFiredMeanwhile sl then [EAbortFired; EStopWorker] else [])%list.
Proof.
  unfold afterSleep. destruct (abortFiredMeanwhile sl); cbn; [reflexivity|].
  now rewrite app_nil_r.
Qed.

(** A recoverable failure caught with cancellation inactive always gets
    as far as the backoff sleep. *)
Lemma turn_backs_off (env : Collaborators) (opts : Options)
    (turn : Iteration) (later : list Iteration) (st : Session) (err : JsVal) :
  aborted st = false ->
  abortWhileRunning turn = false ->
  taskEnd turn = Some err ->
  classify env err <> fatal ->
  exists more,
    (trace (snd (pollLoop env opts (turn :: later) st))
     = trace (backingOff env err turn (afterWorker opts turn st)) ++ more)%list.
Proof.
  intros Hab Hrun Hend Hcls.
  rewrite loop_turn by assumption. cbv zeta. rewrite Hend.
  rewrite afterWorker_aborted, Hab, Hrun. cbn [orb].
  set (st2 := backingOff env err turn (afterWorker opts turn st)).
  assert (Hgoal :
    exists more,
      (trace (snd (match sleepRejects (backoffSleep turn) with
                   | Some sleepErr =>
                       if aborted (afterSleep (backoffSleep turn) st2)
                       then (Done Returned, afterSleep (backoffSleep turn) st2)
                       else (Raised sleepErr, afterSleep (backoffSleep turn) st2)
                   | None => pollLoop env opts later (afterSleep (backoffSleep turn) st2)
                   end)) = trace st2 ++ more)%list).
  { destruct (sleepRejects (backoffSleep turn)) as [sleepErr|].
    - destruct (aborted (afterSleep (backoffSleep turn) st2)); cbn [snd];
        rewrite afterSleep_trace; eauto.
    - apply loop_keeps_prefix; intros _; rewrite afterSleep_trace;
        eexists; rewrite <- ?app_assoc; reflexivity. }
  destruct (classify env err); [exact Hgoal | exact Hgoal | congruence].
Qed.

(** C3, as amended: a fatal error ends the loop by propagating, after
    the one worker of the turn and with no backoff computed and no sleep;
    so does any error caught while cancellation is active.  A conflict or
    recoverable network error caught with cancellation inactive always
    leads to the backoff sleep; a fresh worker follows when the sleep
    runs to its end with cancellation still inactive, and when
    cancellation fires during the sleep the abort listener stops the
    runner once more and the loop returns without a new worker. *)
Theorem restart_policy (env : Collaborators) (opts : Options)
    (turn : Iteration) (later : list Iteration) (st : Session) (err : JsVal) :
  aborted st = false ->
  taskEnd turn = Some err ->
  let st1 := afterWorker opts turn st in
  let st2 := backingOff env err turn st1 in
  let run := pollLoop env opts (turn :: later) st in
  (classify env err = fatal \/ abortWhileRunning turn = true ->
   run = (Raised err, st1) /\
   workersStarted (trace st1) = S (workersStarted (trace st)) /\
   sleeps (trace st1) = sleeps (trace st) /\
   backoffAttempts (trace st1) = backoffAttempts (trace st)) /\
  (classify env err <> fatal -> abortWhileRunning turn = false ->
   (exists more, trace (snd run) = trace st2 ++ more)%list /\
   (sleepRejects (backoffSleep turn) = None ->
    abortFiredMeanwhile (backoffSleep turn) = false ->
    exists more, trace (snd run) = trace st2 ++ ERunWorker :: more)%list /\
   (abortFiredMeanwhile (backoffSleep turn) = true ->
    run = (Done Returned, cancel st2 [EAbortFired; EStopWorker]))).
Proof.
  intros Hab Hend st1 st2 run.
  assert (Hrun : run =
    if aborted st1 then (Raised err, st1)
    else match classify env err with
         | fatal => (Raised err, st1)
         | _ =>
             match sleepRejects (backoffSleep turn) with
             | None => pollLoop env opts later (afterSleep (backoffSleep turn) st2)
             | Some sleepErr =>
                 if aborted (afterSleep (backoffSleep turn) st2)
                 then (Done Returned, afterSleep (backoffSleep turn) st2)
                 else (Raised sleepErr, afterSleep (backoffSleep turn) st2)
             end
         end).
  { unfold run. rewrite loop_turn by assumption. cbv zeta. now rewrite Hend. }
  assert (Hab1 : aborted st1 = abortWhileRunning turn).
  { unfold st1. now rewrite afterWorker_aborted, Hab. }
  split.
  - intros Hcase.
    destruct (afterWorker_readings opts turn st) as [Hw [Hs [Hb _]]].
    split; [|now repeat split].
    rewrite Hrun, Hab1.
    destruct Hcase as [Hfatal | Hcancel]; [|now rewrite Hcancel].
    rewrite Hfatal. now destruct (abortWhileRunning turn).
  - intros Hcls Hnot. rewrite Hnot in Hab1.
    split; [|split].
    + now apply turn_backs_off.
    + intros Hsleep Hquiet. rewrite Hrun, Hab1, Hsleep.
      assert (E : afterSleep (backoffSleep turn) st2 = st2)
        by (unfold afterSleep; now rewrite Hquiet).
      rewrite E.
      assert (W : exists more,
                 (trace (snd (pollLoop env opts later st2))
                  = trace st2 ++ ERunWorker :: more)%list)
        by (apply loop_starts_worker; exact Hab1).
      destruct (classify env err); [exact W | exact W | congruence].
    + intros Hfired. rewrite Hrun, Hab1.
      assert (E : afterSleep (backoffSleep turn) st2 = cancel st2 [EAbortFired; EStopWorker])
        by (unfold afterSleep; now rewrite Hfired).
      rewrite E. cbn [cancel aborted].
      assert (R : match sleepRejects (backoffSleep turn) with
                  | Some _ => (Done Returned, cancel st2 [EAbortFired; EStopWorker])
                  | None => pollLoop env opts later (cancel st2 [EAbortFired; EStopWorker])
                  end = (Done Returned, cancel st2 [EAbortFired; EStopWorker])).
      { destruct (sleepRejects (backoffSleep turn)); [reflexivity|].
        now apply loop_stops_when_cancelled. }
      destruct (classify env err); [exact R | exact R | congruence].
Qed.

Lemma restart_policy_witness :
  (pollLoop plainCollaborators sampleOptions [fatalTurn] (sessionAt None)
   = (Raised unauthorizedError, afterWorker sampleOptions fatalTurn (sessionAt None))) /\
  (pollLoop plainCollaborators sampleOptions
     [cancelledTurn getUpdatesConflictError] (sessionAt None)
   = (Raised getUpdatesConflictError,
      afterWorker sampleOptions (cancelledTurn getUpdatesConflictError) (sessionAt None))) /\
  (exists more,
     trace (snd (pollLoop plainCollaborators sampleOptions [conflictTurn] (sessionAt None)))
     = trace (backingOff plainCollaborators getUpdatesConflictError conflictTurn
                (afterWorker sampleOptions conflictTurn (sessionAt None)))
       ++ ERunWorker :: more)%list /\
  (pollLoop plainCollaborators sampleOptions
     (conflictTurnCutShort :: [conflictTurn]) (sessionAt None)
   = (Done Returned,
      cancel (backingOff plainCollaborators getUpdatesConflictError conflictTurnCutShort
                (afterWorker sampleOptions conflictTurnCutShort (sessionAt None)))
        [EAbortFired; EStopWorker])).
Proof.
  split; [|split; [|split]].
  - apply (restart_policy plainCollaborators sampleOptions fatalTurn []
             (sessionAt None) unauthorizedError eq_refl eq_refl).
    left. reflexivity.
  - apply (restart_policy plainCollaborators sampleOptions
             (cancelledTurn getUpdatesConflictError) []
             (sessionAt None) getUpdatesConflictError eq_refl eq_refl).
    right. reflexivity.
  - apply (restart_policy plainCollaborators sampleOptions conflictTurn []
             (sessionAt None) getUpdatesConflictError eq_refl eq_refl);
      [vm_compute; discriminate | reflexivity | reflexivity | reflexivity].
  - apply (restart_policy plainCollaborators sampleOptions conflictTurnCutShort
             [conflictTurn] (sessionAt None) getUpdatesConflictError eq_refl eq_refl);
      [vm_compute; discriminate | reflexivity | reflexivity].
Defined.

(** C3, counterexample: a conflict is caught while cancellation is
    inactive, the backoff sleep begins, cancellation fires 100 ms into
    it, and the loop returns having started the one worker only, although
    a further turn was available. *)
Lemma conflict_without_restart :
  classify plainCollaborators getUpdatesConflictError = conflict /\
  aborted (afterWorker sampleOptions conflictTurnCutShort (sessionAt None)) = false /\
  fst (pollLoop plainCollaborators sampleOptions conflictThenCancelledSleep
         (sessionAt None)) = Done Returned /\
  workersStarted
    (trace (snd (pollLoop plainCollaborators sampleOptions conflictThenCancelledSleep
                   (sessionAt None)))) = 1 /\
  List.length
    (sleeps
       (trace (snd (pollLoop plainCollaborators sampleOptions conflictThenCancelledSleep
                      (sessionAt None))))) = 1.
Proof. vm_compute. repeat split. Qed.

(** *** The attempt counter *)

Lemma startup_readings (opts : Options) (world : World) (fired : bool) :
  let st1 := snd (startup opts world (initialSession fired)) in
  restartAttempts st1 = 0 /\
  backoffAttempts (trace st1) = [] /\
  aborted st1 = abortSeen (trace st1) /\
  quietAfterAbort false (trace st1) = true.
Proof.
  destruct (startup_frame opts world (initialSession fired))
    as [Hn [Hab [events [Ht Hev]]]].
  destruct (startup_events_readings events Hev) as [Hb [Hs Hq]].
  cbv zeta. rewrite Hn, Hab, Ht.
  rewrite backoffAttempts_app, abortSeen_app, quietAfterAbort_app, Hb, Hs, Hq.
  now destruct fired.
Qed.

(** C4, as amended: the counter is never reset.  The attempt numbers
    handed to [computeBackoff] since the loop began are 1, 2, ..., up to
    the current value of the counter, which never decreases; a
    recoverable failure caught with cancellation inactive computes its
    delay from the counter plus one, whatever the worker delivered before
    failing; and so in every run of [monitorTelegramProvider] the k-th
    backoff is computed from attempt number k. *)
Theorem attempt_counter_counts_failures (env : Collaborators) (opts : Options) :
  (forall script st,
     backoffAttempts (trace st) = seq 1 (restartAttempts st) ->
     backoffAttempts (trace (snd (pollLoop env opts script st)))
     = seq 1 (restartAttempts (snd (pollLoop env opts script st))) /\
     restartAttempts st <= restartAttempts (snd (pollLoop env opts script st))) /\
  (forall turn later st err,
     aborted st = false ->
     abortWhileRunning turn = false ->
     taskEnd turn = Some err ->
     classify env err <> fatal ->
     exists more,
       (trace (snd (pollLoop env opts (turn :: later) st))
        = trace (afterWorker opts turn st)
          ++ EComputeBackoff (S (restartAttempts st)) :: more)%list) /\
  (forall world fired,
     backoffAttempts
       (trace (snd (monitorTelegramProvider env opts world (initialSession fired))))
     = seq 1 (restartAttempts
                (snd (monitorTelegramProvider env opts world (initialSession fired))))).
Proof.
  assert (Hloop : forall script st,
     backoffAttempts (trace st) = seq 1 (restartAttempts st) ->
     backoffAttempts (trace (snd (pollLoop env opts script st)))
     = seq 1 (restartAttempts (snd (pollLoop env opts script st))) /\
     restartAttempts st <= restartAttempts (snd (pollLoop env opts script st))).
  2: { split; [exact Hloop | split].
       - intros turn later st err Hab Hrun Hend Hcls.
         destruct (turn_backs_off env opts turn later st err Hab Hrun Hend Hcls)
           as [more E].
         destruct (afterWorker_readings opts turn st) as [_ [_ [_ Hn]]].
         rewrite E. cbn [backingOff trace]. rewrite Hn.
         eexists. rewrite <- app_assoc. reflexivity.
       - intros world fired. rewrite monitor_phases.
         destruct (startup_readings opts world fired) as [Hn [Hb _]].
         destruct (startup opts world (initialSession fired)) as [[[]|e] st1];
           cbn [snd] in *.
         + destruct (useWebhook opts).
           * cbn. rewrite backoffAttempts_app, Hb, Hn. reflexivity.
           * apply Hloop. now rewrite Hb, Hn.
         + now rewrite Hb, Hn. }
  { intros script st Hinv.
    apply (loop_invariant env opts
             (fun s => backoffAttempts (trace s) = seq 1 (restartAttempts s) /\
                       restartAttempts st <= restartAttempts s)).
    + intros s _ [H1 H2]. cbn. rewrite backoffAttempts_app, H1. cbn.
      now rewrite app_nil_r.
    + intros s ds [H1 H2].
      rewrite delivered_trace, delivered_restartAttempts, backoffAttempts_app.
      destruct (checkpoint_events_readings _
                  (persistTrace_events opts ds (lastUpdateId s))) as [-> _].
      now rewrite app_nil_r.
    + intros s [H1 H2]. cbn. rewrite backoffAttempts_app, H1. cbn.
      now rewrite app_nil_r.
    + intros s err turn _ [H1 H2]. cbn [backingOff trace restartAttempts].
      rewrite backoffAttempts_app, H1, seq_S. cbn. split; [reflexivity | lia].
    + split; [exact Hinv | lia]. }
Qed.

Lemma attempt_counter_counts_failures_witness :
  (backoffAttempts
     (trace (snd (pollLoop plainCollaborators sampleOptions conflictDeliveriesConflict
                    (sessionAt None))))
   = seq 1 (restartAttempts
              (snd (pollLoop plainCollaborators sampleOptions conflictDeliveriesConflict
                      (sessionAt None))))) /\
  (exists more,
     trace (snd (pollLoop plainCollaborators sampleOptions [conflictTurn] (sessionAt None)))
     = trace (afterWorker sampleOptions conflictTurn (sessionAt None))
       ++ EComputeBackoff 1 :: more)%list.
Proof.
  destruct (attempt_counter_counts_failures plainCollaborators sampleOptions)
    as [Hall [Hturn _]].
  split.
  - apply (Hall conflictDeliveriesConflict (sessionAt None)). reflexivity.
  - apply (Hturn conflictTurn [] (sessionAt None) getUpdatesConflictError);
      [reflexivity | reflexivity | reflexivity | vm_compute; discriminate].
Defined.

(** C4, counterexample: after a first conflict the restarted worker
    delivers and persists two updates, then meets a second conflict; the
    second backoff is computed from attempt number 2. *)
Lemma counter_survives_deliveries :
  storeWrites
    (trace (snd (pollLoop plainCollaborators sampleOptions conflictDeliveriesConflict
                   (sessionAt None)))) = [1001%Z; 1002%Z] /\
  backoffAttempts
    (trace (snd (pollLoop plainCollaborators sampleOptions conflictDeliveriesConflict
                   (sessionAt None)))) = [1; 2] /\
  workersStarted
    (trace (snd (pollLoop plainCollaborators sampleOptions conflictDeliveriesConflict
                   (sessionAt None)))) = 3.
Proof. vm_compute. repeat split. Qed.

(** *** Cancellation *)

Lemma cancelled_sleep_returns (env : Collaborators) (opts : Options)
    (turn : Iteration) (later : list Iteration) (st : Session) (err : JsVal) :
  aborted st = false ->
  abortWhileRunning turn = false ->
  taskEnd turn = Some err ->
  classify env err <> fatal ->
  abortFiredMeanwhile (backoffSleep turn) = true ->
  pollLoop env opts (turn :: later) st
  = (Done Returned,
     cancel (backingOff env err turn (afterWorker opts turn st)) [EAbortFired; EStopWorker]).
Proof.
  intros Hab Hrun Hend Hcls Hfired.
  rewrite loop_turn by assumption. cbv zeta. rewrite Hend.
  rewrite afterWorker_aborted, Hab, Hrun. cbn [orb].
  unfold afterSleep. rewrite Hfired. cbn [cancel aborted].
  destruct (classify env err); try congruence;
    (destruct (sleepRejects (backoffSleep turn)); [reflexivity|];
     now apply loop_stops_when_cancelled).
Qed.

Lemma sleep_cut_short (delayMs t : Q) :
  (t < delayMs)%Q ->
  sleepWithAbort delayMs (Some t)
  = {| sleepRejects := Some (VPrimitive "aborted");
       abortFiredMeanwhile := true; elapsedMs := t |}.
Proof.
  intros Hlt. unfold sleepWithAbort.
  destruct (Qle_bool delayMs t) eqn:E; [|reflexivity].
  apply Qle_bool_iff in E. exfalso. exact (Qlt_not_le _ _ Hlt E).
Qed.

Lemma loop_quiet_after_abort (env : Collaborators) (opts : Options)
    (script : list Iteration) (st : Session) :
  quietAfterAbort false (trace st) = true ->
  aborted st = abortSeen (trace st) ->
  quietAfterAbort false (trace (snd (pollLoop env opts script st))) = true /\
  aborted (snd (pollLoop env opts script st))
  = abortSeen (trace (snd (pollLoop env opts script st))).
Proof.
  intros Hq Hs.
  apply (loop_invariant env opts
           (fun s => quietAfterAbort false (trace s) = true /\
                     aborted s = abortSeen (trace s))).
  - intros s Hab [H1 H2]. cbn [extend trace aborted].
    rewrite quietAfterAbort_app, abortSeen_app, H1, <- H2, Hab. now split.
  - intros s ds [H1 H2].
    destruct (quiet_checkpoint_events (false || abortSeen (trace s)) _
                (persistTrace_events opts ds (lastUpdateId s))) as [Q1 Q2].
    rewrite delivered_trace, delivered_aborted, quietAfterAbort_app, abortSeen_app,
      H1, Q1, Q2, orb_false_r. now split.
  - intros s [H1 H2]. cbn [cancel trace aborted].
    rewrite quietAfterAbort_app, abortSeen_app, H1. cbn. now rewrite orb_true_r.
  - intros s err turn _ [H1 H2]. cbn [backingOff trace aborted].
    rewrite quietAfterAbort_app, abortSeen_app, H1. cbn. now rewrite orb_false_r.
  - now split.
Qed.

(** C8: when cancellation fires during the backoff sleep the loop
    returns, however the sleep settles, and plays no further turn (the
    abort listener, still registered, stops the runner that has already
    failed); the sleep, which is handed the signal of the loop, ends when
    the signal fires, after the time elapsed until then and not after the
    whole delay, and the loop returns right then; and in every run of
    the loop, and so of [monitorTelegramProvider], no worker is started
    once the signal has fired. *)
Theorem cancellation_during_backoff (env : Collaborators) (opts : Options) :
  (forall turn later st err,
     aborted st = false ->
     abortWhileRunning turn = false ->
     taskEnd turn = Some err ->
     classify env err <> fatal ->
     abortFiredMeanwhile (backoffSleep turn) = true ->
     pollLoop env opts (turn :: later) st
     = (Done Returned,
        cancel (backingOff env err turn (afterWorker opts turn st))
          [EAbortFired; EStopWorker])) /\
  (forall delayMs t,
     (t < delayMs)%Q ->
     sleepWithAbort delayMs (Some t)
     = {| sleepRejects := Some (VPrimitive "aborted");
          abortFiredMeanwhile := true; elapsedMs := t |}) /\
  (forall turn later st err t,
     aborted st = false ->
     abortWhileRunning turn = false ->
     taskEnd turn = Some err ->
     classify env err <> fatal ->
     (t < backoffDelay turn (afterWorker opts turn st))%Q ->
     backoffSleep turn
     = sleepWithAbort (backoffDelay turn (afterWorker opts turn st)) (Some t) ->
     fst (pollLoop env opts (turn :: later) st) = Done Returned /\
     elapsedMs (backoffSleep turn) = t /\
     exists line,
       (trace (snd (pollLoop env opts (turn :: later) st))
        = trace (afterWorker opts turn st)
          ++ [EComputeBackoff (S (restartAttempts st));
              ELog line;
              ESleep (backoffDelay turn (afterWorker opts turn st)) OptsAbortSignal;
              EAbortFired;
              EStopWorker])%list) /\
  (forall script st,
     quietAfterAbort false (trace st) = true ->
     aborted st = abortSeen (trace st) ->
     quietAfterAbort false (trace (snd (pollLoop env opts script st))) = true) /\
  (forall world fired,
     quietAfterAbort false
       (trace (snd (monitorTelegramProvider env opts world (initialSession fired))))
     = true).
Proof.
  split; [|split; [|split; [|split]]].
  - apply cancelled_sleep_returns.
  - apply sleep_cut_short.
  - intros turn later st err t Hab Hrun Hend Hcls Hlt Hsleep.
    pose proof (sleep_cut_short _ _ Hlt) as Hcut. rewrite <- Hsleep in Hcut.
    rewrite (cancelled_sleep_returns env opts turn later st err Hab Hrun Hend Hcls)
      by (now rewrite Hcut).
    cbn [fst snd cancel trace backingOff].
    destruct (afterWorker_readings opts turn st) as [_ [_ [_ Hn]]].
    split; [reflexivity|]. split; [now rewrite Hcut|].
    eexists. rewrite Hn, <- app_assoc. reflexivity.
  - intros script st Hq Hs. now apply loop_quiet_after_abort.
  - intros world fired. rewrite monitor_phases.
    destruct (startup_readings opts world fired) as [_ [_ [Hs Hq]]].
    destruct (startup opts world (initialSession fired)) as [[[]|e] st1];
      cbn [snd] in *; [|exact Hq].
    destruct (useWebhook opts).
    + cbn. rewrite quietAfterAbort_app, Hq. reflexivity.
    + now apply loop_quiet_after_abort.
Qed.

Lemma cancellation_during_backoff_witness :
  pollLoop plainCollaborators sampleOptions
    (conflictTurnCutShort :: [conflictTurn]) (sessionAt None)
  = (Done Returned,
     cancel (backingOff plainCollaborators getUpdatesConflictError conflictTurnCutShort
               (afterWorker sampleOptions conflictTurnCutShort (sessionAt None)))
       [EAbortFired; EStopWorker]) /\
  sleepWithAbort 2000 (Some 100%Q)
  = {| sleepRejects := Some (VPrimitive "aborted");
       abortFiredMeanwhile := true; elapsedMs := 100 |} /\
  (fst (pollLoop plainCollaborators sampleOptions
          (conflictTurnCutShort :: [conflictTurn]) (sessionAt None)) = Done Returned /\
   elapsedMs (backoffSleep conflictTurnCutShort) = 100%Q) /\
  quietAfterAbort false
    (trace (snd (pollLoop plainCollaborators sampleOptions conflictThenCancelledSleep
                   (sessionAt None)))) = true.
Proof.
  destruct (cancellation_during_backoff plainCollaborators sampleOptions)
    as [Hloop [Hsleep [Hboth [Hquiet _]]]].
  split; [|split; [|split]].
  - apply (Hloop conflictTurnCutShort [conflictTurn] (sessionAt None)
             getUpdatesConflictError);
      [reflexivity | reflexivity | reflexivity | vm_compute; discriminate | reflexivity].
  - apply Hsleep. reflexivity.
  - destruct (Hboth conflictTurnCutShort [conflictTurn] (sessionAt None)
                getUpdatesConflictError 100%Q) as [Hret [Helapsed _]];
      [reflexivity | reflexivity | reflexivity | vm_compute; discriminate
      | reflexivity | reflexivity | ].
    now split.
  - apply Hquiet; reflexivity.
Defined.

End Supervisor.

(* ================================================================= *)
(** ** Failures of the checkpoint store *)

Module StorageFacts.

Import JsString Classifier Backoff Monitor Checkpoint CheckpointFacts.
Import Turn Startup LoopFacts StartupFacts Contract Scenarios.
Local Open Scope nat_scope.

Lemma withoutPersistFailures_app (a b : list Effect) :
  withoutPersistFailures (a ++ b)
  = (withoutPersistFailures a ++ withoutPersistFailures b)%list.
Proof. unfold withoutPersistFailures. apply filter_app. Qed.

Lemma same_refl (a : Session) : sameButPersistFailures a a.
Proof. now repeat split. Qed.

Lemma same_extend (a b : Session) (events : list Effect) :
  sameButPersistFailures a b ->
  sameButPersistFailures (extend a events) (extend b events).
Proof.
  intros [H1 [H2 [H3 H4]]]. repeat split; cbn; try assumption.
  now rewrite !withoutPersistFailures_app, H4.
Qed.

Lemma same_cancel (a b : Session) (events : list Effect) :
  sameButPersistFailures a b ->
  sameButPersistFailures (cancel a events) (cancel b events).
Proof.
  intros [H1 [H2 [H3 H4]]]. repeat split; cbn; try assumption.
  now rewrite !withoutPersistFailures_app, H4.
Qed.

Lemma same_advanced (opts : Options) (d : Delivery) (a b : Session) :
  sameButPersistFailures a b ->
  sameButPersistFailures (advanced opts d a) (advanced opts (healed d) b).
Proof.
  intros [H1 [H2 [H3 H4]]]. repeat split; cbn; try assumption.
  rewrite !withoutPersistFailures_app, H4. f_equal.
  unfold persistLog. cbn. now destruct (writeThrows d).
Qed.

Lemma same_delivered (opts : Options) (ds : list Delivery) (a b : Session) :
  sameButPersistFailures a b ->
  sameButPersistFailures (delivered opts ds a) (delivered opts (map healed ds) b).
Proof.
  revert a b; induction ds as [|d ds IH]; intros a b Hsame; [exact Hsame|].
  cbn [map]. rewrite !delivered_cons. apply IH.
  pose proof Hsame as [Hid _].
  destruct (persist_cases opts d a) as [[Ga ->] | [Ga ->]];
    destruct (persist_cases opts (healed d) b) as [[Gb ->] | [Gb ->]];
    cbn [snd]; cbn [healed updateId] in Gb; rewrite Hid in Ga; try congruence.
  now apply same_advanced.
Qed.

Lemma same_afterWorker (opts : Options) (turn : Iteration) (a b : Session) :
  sameButPersistFailures a b ->
  sameButPersistFailures (afterWorker opts turn a) (afterWorker opts (healthyTurn turn) b).
Proof.
  intros Hsame. unfold afterWorker. cbn [healthyTurn deliveries abortWhileRunning].
  destruct (abortWhileRunning turn); [apply same_cancel|];
    now apply same_delivered, same_extend.
Qed.

Lemma same_backingOff (env : Collaborators) (err : JsVal) (turn : Iteration)
    (a b : Session) :
  sameButPersistFailures a b ->
  sameButPersistFailures (backingOff env err turn a)
                         (backingOff env err (healthyTurn turn) b).
Proof.
  intros [H1 [H2 [H3 H4]]]. unfold backingOff, backoffDelay.
  cbn [healthyTurn draw]. rewrite H2.
  repeat split; cbn; try assumption.
  now rewrite !withoutPersistFailures_app, H4.
Qed.

Lemma same_afterSleep (sl : SleepEnd) (a b : Session) :
  sameButPersistFailures a b ->
  sameButPersistFailures (afterSleep sl a) (afterSleep sl b).
Proof.
  intros Hsame. unfold afterSleep.
  destruct (abortFiredMeanwhile sl); [now apply same_cancel | exact Hsame].
Qed.

(** Whether store writes fail or succeed makes no difference to how the
    loop ends, to the checkpoint, the counter and the cancellation flag,
    nor to the trace apart from the lines that log the failures. *)
Lemma loop_blind_to_write_failures (env : Collaborators) (opts : Options)
    (script : list Iteration) (a b : Session) :
  sameButPersistFailures a b ->
  fst (pollLoop env opts script a) = fst (pollLoop env opts (map healthyTurn script) b) /\
  sameButPersistFailures (snd (pollLoop env opts script a))
                         (snd (pollLoop env opts (map healthyTurn script) b)).
Proof.
  revert a b; induction script as [|turn later IH]; intros a b Hsame;
    pose proof Hsame as [_ [_ [Hflag _]]];
    destruct (aborted a) eqn:Ha; symmetry in Hflag.
  - rewrite !loop_stops_when_cancelled by assumption. now split.
  - cbn [map]. rewrite !loop_out_of_turns by assumption.
    split; [reflexivity | now apply same_extend].
  - rewrite !loop_stops_when_cancelled by assumption. now split.
  - cbn [map]. rewrite !loop_turn by assumption. cbv zeta.
    cbn [healthyTurn taskEnd backoffSleep].
    pose proof (same_afterWorker opts turn a b Hsame) as H1.
    destruct (taskEnd turn) as [err|]; [|now split].
    pose proof H1 as [_ [_ [Hflag1 _]]]. rewrite <- Hflag1.
    destruct (aborted (afterWorker opts turn a)); [now split|].
    pose proof (same_afterSleep (backoffSleep turn) _ _
                  (same_backingOff env err turn _ _ H1)) as H3.
    pose proof H3 as [_ [_ [Hflag3 _]]].
    destruct (classify env err); try (now split);
      (destruct (sleepRejects (backoffSleep turn));
       [ rewrite <- Hflag3; destruct (aborted (afterSleep _ _)); now split
       | now apply IH ]).
Qed.

(** C5, as amended: a failure of a checkpoint write is never fatal.  The
    callback never throws; when its write fails the failure is logged and
    the in-memory checkpoint stays advanced; the restart loop ends the
    same way, with the same checkpoint and counter, as with a store whose
    writes all succeed; and a failure of the backfill write at startup is
    swallowed without a log line. *)
Theorem store_write_failures_are_not_fatal (env : Collaborators) (opts : Options) :
  (forall d st, fst (persistUpdateId opts d st) = Done tt) /\
  (forall d st e,
     writeThrows d = Some e ->
     accepts st d ->
     persistUpdateId opts d st = (Done tt, advanced opts d st) /\
     logLines (trace (advanced opts d st))
     = (logLines (trace st) ++ [LogPersistFailed e])%list) /\
  (forall script st,
     fst (pollLoop env opts script st)
     = fst (pollLoop env opts (map healthyTurn script) st) /\
     sameButPersistFailures (snd (pollLoop env opts script st))
                            (snd (pollLoop env opts (map healthyTurn script) st))) /\
  (forall world stored id st e,
     backfillThrows world = Some e ->
     OffsetStore.tokenHash stored = None ->
     OffsetStore.lastUpdateId stored = Some id ->
     reconcile opts world (Some stored) st
     = (Done tt, extend st [EStoreWrite (accountId opts) id (tokenHash opts)])).
Proof.
  split; [|split; [|split]].
  - apply persist_returns.
  - intros d st e Hthrows Hacc. split.
    + apply persist_body. unfold accepts in Hacc.
      destruct (lastUpdateId st); [now apply Z.leb_gt | reflexivity].
    + cbn [advanced trace]. unfold logLines, persistLog.
      rewrite Hthrows, !flat_map_app. cbn. reflexivity.
  - intros script st. apply loop_blind_to_write_failures, same_refl.
  - intros world stored id st e _. apply reconcile_backfills.
Qed.

Lemma store_write_failures_are_not_fatal_witness :
  (persistUpdateId sampleOptions (failingDelivery 501) (sessionAt (Some 500%Z))
   = (Done tt, advanced sampleOptions (failingDelivery 501) (sessionAt (Some 500%Z))) /\
   logLines (trace (advanced sampleOptions (failingDelivery 501) (sessionAt (Some 500%Z))))
   = [LogPersistFailed (VPrimitive "EACCES")]) /\
  reconcile sampleOptions
    (worldWith (Done (Some legacyState)) (ProbeThrows VFalsy) (Some (VPrimitive "EACCES")))
    (Some legacyState) (sessionAt (Some 123%Z))
  = (Done tt, extend (sessionAt (Some 123%Z)) [EStoreWrite "default" 123 "h-current"]).
Proof.
  destruct (store_write_failures_are_not_fatal plainCollaborators sampleOptions)
    as [_ [Hpersist [_ Hbackfill]]].
  split.
  - apply (Hpersist (failingDelivery 501) (sessionAt (Some 500%Z)) (VPrimitive "EACCES"));
      [reflexivity | cbn; lia].
  - apply (Hbackfill
             (worldWith (Done (Some legacyState)) (ProbeThrows VFalsy)
                (Some (VPrimitive "EACCES")))
             legacyState 123%Z (sessionAt (Some 123%Z)) (VPrimitive "EACCES"));
      reflexivity.
Defined.

(** C5, counterexample: the backfill write is issued and throws, and no
    line is logged. *)
Lemma backfill_failure_is_not_logged :
  backfillThrows
    (worldWith (Done (Some legacyState)) (ProbeThrows VFalsy) (Some (VPrimitive "EACCES")))
  = Some (VPrimitive "EACCES") /\
  storeWrites
    (trace (snd (reconcile sampleOptions
                   (worldWith (Done (Some legacyState)) (ProbeThrows VFalsy)
                      (Some (VPrimitive "EACCES")))
                   (Some legacyState) (sessionAt (Some 123%Z))))) = [123%Z] /\
  logLines
    (trace (snd (reconcile sampleOptions
                   (worldWith (Done (Some legacyState)) (ProbeThrows VFalsy)
                      (Some (VPrimitive "EACCES")))
                   (Some legacyState) (sessionAt (Some 123%Z))))) = [].
Proof. repeat split. Qed.

(** The store read is awaited outside any [try]: with a store whose read
    fails on unreadable state, startup ends with that failure. *)
Example unreadable_state_ends_startup :
  startup sampleOptions
    (worldWith (readOutcome (OffsetStore.readTelegramUpdateOffsetState OffsetStore.Unreadable))
       (ProbeThrows VFalsy) None)
    (sessionAt None)
  = (Raised storageError, extend (sessionAt None) [EStoreRead "default"]).
Proof. reflexivity. Qed.

End StorageFacts.

(* ================================================================= *)
(** ** The backoff policy *)

Module BackoffFacts.

Import Backoff.
Local Open Scope Q_scope.

Lemma unjittered_bounds (p : BackoffPolicy) (n : nat) :
  0 <= initialMs p -> 0 <= maxMs p -> 0 <= factor p ->
  0 <= unjitteredDelay p n /\ unjitteredDelay p n <= maxMs p.
Proof.
  intros Hi Hm Hf. unfold unjitteredDelay.
  assert (Hpow : 0 <= factor p ^ (Z.of_nat n - 1)) by now apply Qpower_0_le.
  assert (Hbase : 0 <= initialMs p * factor p ^ (Z.of_nat n - 1))
    by now apply Qmult_le_0_compat.
  split.
  - now apply Q.min_glb.
  - apply Q.le_min_l.
Qed.

(** Perturbing a delay [u] between 0 and [M] by the fraction [j] times a
    draw in [-1, 1] and clamping to [M] stays within [j * u] of [u]. *)
Lemma clamp_bounds (M u j r : Q) :
  0 <= u -> u <= M -> 0 <= j -> -1 <= r -> r <= 1 ->
  Qmin M (u * (1 + j * r)) <= M /\
  u - j * u <= Qmin M (u * (1 + j * r)) /\
  Qmin M (u * (1 + j * r)) <= u + j * u.
Proof.
  intros Hu HuM Hj Hr1 Hr2.
  assert (Hw : 0 <= u * j) by now apply Qmult_le_0_compat.
  assert (Hup : u * (1 + j * r) <= u + j * u) by nra.
  assert (Hlow : u - j * u <= u * (1 + j * r)) by nra.
  split; [apply Q.le_min_l|]. split.
  - apply Q.min_glb; [|exact Hlow]. nra.
  - eapply Qle_trans; [apply Q.le_min_r | exact Hup].
Qed.

(** C7: for every policy with non-negative fields, every attempt number
    and every draw between -1 and 1, the delay without jitter is
    [min(maxMs, initialMs * factor^(n-1))], the delay differs from it by at
    most the jitter fraction of it, and neither exceeds [maxMs] however
    large the attempt number; under the poll restart policy the delay of
    attempt 5 without jitter is [min(30000, 2000 * 1.8^4)], that is
    20995.2 ms, and no delay the restart loop sleeps exceeds 30000 ms. *)
Theorem backoff_policy_bounds :
  (forall (p : BackoffPolicy) (n : nat) (r : Q),
     0 <= initialMs p -> 0 <= maxMs p -> 0 <= factor p -> 0 <= jitter p ->
     -1 <= r -> r <= 1 ->
     computeBackoff p n 0
     == Qmin (maxMs p) (initialMs p * factor p ^ (Z.of_nat n - 1)) /\
     Qabs (computeBackoff p n r - unjitteredDelay p n)
     <= jitter p * unjitteredDelay p n /\
     computeBackoff p n r <= maxMs p /\
     unjitteredDelay p n <= maxMs p) /\
  unjitteredDelay TELEGRAM_POLL_RESTART_POLICY 5
  == Qmin 30000 (2000 * (18 # 10) ^ 4) /\
  unjitteredDelay TELEGRAM_POLL_RESTART_POLICY 5 == 104976 # 5 /\
  (forall turn st, Turn.backoffDelay turn st <= 30000).
Proof.
  split; [|split; [|split]].
  - intros p n r Hi Hm Hf Hj Hr1 Hr2.
    destruct (unjittered_bounds p n Hi Hm Hf) as [Hu HuM].
    destruct (clamp_bounds (maxMs p) (unjitteredDelay p n) (jitter p) r
                Hu HuM Hj Hr1 Hr2) as [Hmax [Hlow Hup]].
    fold (computeBackoff p n r) in Hmax, Hlow, Hup.
    split; [|split; [|split]].
    + fold (unjitteredDelay p n). unfold computeBackoff.
      destruct (Q.min_spec (maxMs p) (unjitteredDelay p n * (1 + jitter p * 0)))
        as [[H E] | [H E]]; rewrite E.
      * exfalso. lra.
      * ring.
    + apply Qabs_Qle_condition. split; lra.
    + exact Hmax.
    + exact HuM.
  - vm_compute. reflexivity.
  - vm_compute. reflexivity.
  - intros turn st. unfold Turn.backoffDelay, computeBackoff. apply Q.le_min_l.
Qed.

Lemma backoff_policy_bounds_witness :
  computeBackoff TELEGRAM_POLL_RESTART_POLICY 5 0
  == Qmin 30000 (2000 * (18 # 10) ^ (Z.of_nat 5 - 1)) /\
  Qabs (computeBackoff TELEGRAM_POLL_RESTART_POLICY 5 (1 # 2)
        - unjitteredDelay TELEGRAM_POLL_RESTART_POLICY 5)
  <= (25 # 100) * unjitteredDelay TELEGRAM_POLL_RESTART_POLICY 5 /\
  computeBackoff TELEGRAM_POLL_RESTART_POLICY 5 (1 # 2) <= 30000 /\
  unjitteredDelay TELEGRAM_POLL_RESTART_POLICY 5 <= 30000.
Proof.
  destruct backoff_policy_bounds as [Hall _].
  apply (Hall TELEGRAM_POLL_RESTART_POLICY 5%nat (1 # 2));
    vm_compute; discriminate.
Defined.

Example backoff_attempt_50_is_clamped :
  computeBackoff TELEGRAM_POLL_RESTART_POLICY 50 1 == 30000.
Proof. vm_compute. reflexivity. Qed.

End BackoffFacts.

(* ================================================================= *)
(** ** The entry point: token, startup, webhook mode *)

Module EntryFacts.

Import JsString JsStringFacts Classifier Backoff Monitor Checkpoint CheckpointFacts.
Import Contract Turn Scenarios Startup Entry LoopFacts StartupFacts.
Local Open Scope string_scope.

(** *** The token *)

Lemma trimStart_empty_iff (s : string) :
  isEmpty (trimStart s) = true <-> allWhitespace s = true.
Proof.
  induction s as [|c rest IH]; cbn; [tauto|].
  destruct (isWhitespace c); cbn; [exact IH | split; discriminate].
Qed.

Lemma trimStart_head (s : string) (c : ascii) (rest : string) :
  trimStart s = String c rest -> isWhitespace c = false.
Proof.
  induction s as [|a s IH]; cbn; [discriminate|].
  destruct (isWhitespace a) eqn:E; [exact IH|].
  now intros [= <- _].
Qed.

Lemma trim_empty_iff (s : string) :
  isEmpty (trim s) = true <-> allWhitespace s = true.
Proof.
  rewrite <- trimStart_empty_iff. unfold trim.
  destruct (trimStart s) as [|c rest] eqn:E; [reflexivity|].
  apply trimStart_head in E. cbn. rewrite E. cbn. tauto.
Qed.

Lemma isEmpty_iff (s : string) : isEmpty s = true <-> s = EmptyString.
Proof. destruct s; cbn; split; congruence. Qed.

Lemma token_empty_iff (optsToken : option string) (accountToken : string) :
  isEmpty (resolveToken optsToken accountToken) = true <->
  blank optsToken = true /\ accountToken = EmptyString.
Proof.
  unfold resolveToken, blank. destruct optsToken as [t|].
  - pose proof (trim_empty_iff t) as T.
    destruct (isEmpty (trim t)) eqn:E.
    + rewrite isEmpty_iff. split; [intros ->; split; [tauto | reflexivity] | tauto].
    + rewrite E. split; [discriminate|]. intros [H _]. apply T in H. discriminate.
  - rewrite isEmpty_iff. tauto.
Qed.

(** *** Startup, phase by phase *)

Lemma startup_phases (opts : Options) (world : World)
    (stored : option OffsetStore.StoredState) (st : Session) :
  isEmpty (token opts) = false ->
  storeRead world = Done stored ->
  startup opts world st
  = (Done tt,
     extend (snd (reconcile opts world stored (afterRead opts stored st)))
       [ECreateBot
          (lastUpdateId (snd (reconcile opts world stored (afterRead opts stored st))))]).
Proof.
  intros Htoken Hread. unfold startup, readTelegramUpdateOffsetState.
  rewrite Htoken, Hread. run_startup. cbn.
  fold (storedId stored). rewrite <- app_assoc. cbn [app].
  change {| lastUpdateId := storedId stored; restartAttempts := restartAttempts st;
            aborted := aborted st;
            trace := trace st ++ [EStoreRead (accountId opts); EAssign (storedId stored)] |}
    with (afterRead opts stored st).
  pose proof (reconcile_frame opts world stored (afterRead opts stored st)) as [Hret _].
  destruct (reconcile opts world stored (afterRead opts stored st)) as [[[]|e] st2];
    cbn in *; [reflexivity | discriminate].
Qed.

(** What reconciliation does to the session: it appends events of its
    own, among them at most one request or one store write, never both,
    and any write is for the account and fingerprint of the call. *)
Lemma reconcile_effects (opts : Options) (world : World)
    (stored : option OffsetStore.StoredState) (st : Session) :
  exists events,
    (trace (snd (reconcile opts world stored st)) = trace st ++ events)%list /\
    forallb reconcileEvent events = true /\
    forallb (currentWrite opts) events = true /\
    (List.length (fetches events) + List.length (storeWrites events) <= 1)%nat.
Proof.
  unfold reconcile. destruct (tokenChanged opts stored).
  - destruct (probe world) as [err | [|] status [[[|] text result]|]];
      run_startup; cbn;
      eexists; (split; [rewrite <- ?app_assoc; reflexivity | cbn; repeat split; lia]).
  - destruct (needsBackfill stored) as [id|]; [destruct (backfillThrows world)|];
      run_startup; cbn;
      try (eexists; split; [rewrite <- ?app_assoc; reflexivity|];
           cbn; rewrite !String.eqb_refl; repeat split; lia);
      exists []; rewrite app_nil_r; cbn; repeat split; lia.
Qed.

Lemma storeWrites_app (a b : list Effect) :
  storeWrites (a ++ b) = (storeWrites a ++ storeWrites b)%list.
Proof. unfold storeWrites. apply flat_map_app. Qed.

Lemma botsCreated_app (a b : list Effect) :
  botsCreated (a ++ b) = (botsCreated a ++ botsCreated b)%list.
Proof. unfold botsCreated. apply flat_map_app. Qed.

Lemma webhooksStarted_app (a b : list Effect) :
  webhooksStarted (a ++ b) = (webhooksStarted a + webhooksStarted b)%nat.
Proof. unfold webhooksStarted. now rewrite filter_app, length_app. Qed.

Lemma reconcile_events_census (events : list Effect) :
  forallb reconcileEvent events = true -> botsCreated events = [].
Proof.
  induction events as [|e events IH]; [reflexivity|].
  cbn [forallb]. intros H. apply andb_true_iff in H as [He Hrest].
  destruct e; cbn in He; try discriminate; cbn; auto.
Qed.

Lemma startup_events_census (events : list Effect) :
  forallb startupEvent events = true ->
  workersStarted events = 0%nat /\ webhooksStarted events = 0%nat /\ sleeps events = [].
Proof.
  induction events as [|e events IH]; [now repeat split|].
  cbn [forallb]. intros H. apply andb_true_iff in H as [He Hrest].
  destruct (IH Hrest) as [Hw [Hh Hs]].
  destruct e; cbn in He; try discriminate; now repeat split.
Qed.

(** The entry point only ever appends to the trace that startup leaves. *)
Lemma monitor_keeps_prefix (env : Collaborators) (opts : Options) (world : World)
    (st : Session) (pre : list Effect) :
  (exists more, trace (snd (startup opts world st)) = pre ++ more)%list ->
  (exists more,
     trace (snd (monitorTelegramProvider env opts world st)) = pre ++ more)%list.
Proof.
  intros [more E]. rewrite Supervisor.monitor_phases.
  destruct (startup opts world st) as [[[]|e] st1]; cbn [snd] in *; [|now exists more].
  destruct (useWebhook opts).
  - cbn. rewrite E. eexists. now rewrite <- app_assoc.
  - apply loop_keeps_prefix; intros _; rewrite E; eexists;
      rewrite <- ?app_assoc; reflexivity.
Qed.

(** From line 112 on, with the configuration and the account that lines
    107-111 resolve as given: the token is [opts.token] trimmed, and else
    the token of the account.  When [opts.token] is absent or blank and
    the account has no token, the entry point throws the missing-token
    error before any store read, request, store write, log line, bot or
    worker; in every other case the check passes and the first of these
    actions is the read of the stored state. *)
Theorem missing_token_gate (env : Collaborators) (opts : Options) (world : World)
    (st : Session) (optsToken : option string) (accountToken : string) :
  token opts = resolveToken optsToken accountToken ->
  (blank optsToken = true /\ accountToken = EmptyString ->
   monitorTelegramProvider env opts world st = (Raised (missingToken opts), st)) /\
  (~ (blank optsToken = true /\ accountToken = EmptyString) ->
   exists more,
     (trace (snd (monitorTelegramProvider env opts world st))
      = trace st ++ EStoreRead (accountId opts) :: more)%list).
Proof.
  intros Htoken. pose proof (token_empty_iff optsToken accountToken) as Hempty.
  rewrite <- Htoken in Hempty. split.
  - intros Hblank. apply Hempty in Hblank.
    unfold monitorTelegramProvider, startup. unfold bind at 1. now rewrite Hblank.
  - intros Hnot.
    assert (Hfull : isEmpty (token opts) = false).
    { destruct (isEmpty (token opts)); [exfalso; apply Hnot; now apply Hempty | reflexivity]. }
    destruct (monitor_keeps_prefix env opts world st (trace st ++ [EStoreRead (accountId opts)]))
      as [more E].
    + destruct (storeRead world) as [stored | e] eqn:Hread.
      * rewrite (startup_phases opts world stored st Hfull Hread).
        destruct (reconcile_effects opts world stored (afterRead opts stored st))
          as [events [Ht _]].
        cbn [snd extend trace]. rewrite Ht. cbn [afterRead trace].
        eexists. rewrite <- !app_assoc. reflexivity.
      * rewrite (read_failure_propagates opts world st e Hfull Hread).
        exists []. cbn. now rewrite app_nil_r.
    + exists more. rewrite E. now rewrite <- app_assoc.
Qed.

Lemma missing_token_gate_witness :
  monitorTelegramProvider plainCollaborators
    {| token := EmptyString; accountId := "default"; tokenHash := "h"; useWebhook := false |}
    (worldWith (Done None) (ProbeThrows VFalsy) None) (sessionAt None)
  = (Raised (missingToken
               {| token := EmptyString; accountId := "default"; tokenHash := "h";
                  useWebhook := false |}), sessionAt None) /\
  exists more,
    (trace (snd (monitorTelegramProvider plainCollaborators sampleOptions
                   (worldWith (Done None) (ProbeThrows VFalsy) None) (sessionAt None)))
     = trace (sessionAt None) ++ EStoreRead "default" :: more)%list.
Proof.
  split.
  - apply (missing_token_gate plainCollaborators
             {| token := EmptyString; accountId := "default"; tokenHash := "h";
                useWebhook := false |}
             (worldWith (Done None) (ProbeThrows VFalsy) None) (sessionAt None)
             (Some "  ") EmptyString eq_refl).
    split; reflexivity.
  - apply (missing_token_gate plainCollaborators sampleOptions
             (worldWith (Done None) (ProbeThrows VFalsy) None) (sessionAt None)
             (Some " 123:abc ") "fallback" eq_refl).
    intros [H _]. discriminate H.
Defined.

(** *** Reconciliation when nothing is to be done *)

(** With no stored state, with a stored fingerprint equal to the current
    one or empty, or with neither fingerprint nor id stored, the
    reconciler does nothing at all, and startup seeds the bot with the
    stored id as it was read. *)
Theorem unchanged_token_keeps_checkpoint (opts : Options) (world : World)
    (stored : option OffsetStore.StoredState) (st : Session) :
  (stored = None \/
   exists s, stored = Some s /\
     (OffsetStore.tokenHash s = Some (tokenHash opts) \/
      OffsetStore.tokenHash s = Some EmptyString \/
      (OffsetStore.tokenHash s = None /\ OffsetStore.lastUpdateId s = None))) ->
  reconcile opts world stored st = (Done tt, st) /\
  (isEmpty (token opts) = false ->
   storeRead world = Done stored ->
   startup opts world st
   = (Done tt, extend (afterRead opts stored st) [ECreateBot (storedId stored)])).
Proof.
  intros Hcase.
  assert (Hnoop : forall s0, reconcile opts world stored s0 = (Done tt, s0)).
  { intros s0. unfold reconcile, tokenChanged, needsBackfill, truthyHash.
    destruct Hcase as [-> | [s [-> [Hh | [Hh | [Hh Hid]]]]]]; [reflexivity | | | ];
      rewrite Hh; cbn.
    - rewrite String.eqb_refl. cbn. now rewrite andb_false_r.
    - reflexivity.
    - now rewrite Hid. }
  split; [apply Hnoop|].
  intros Htoken Hread. rewrite (startup_phases opts world stored st Htoken Hread).
  now rewrite Hnoop.
Qed.

Lemma unchanged_token_keeps_checkpoint_witness :
  reconcile sampleOptions (worldWith (Done (Some currentState)) (probeAnswer [900%Z]) None)
    (Some currentState) (sessionAt (Some 500%Z))
  = (Done tt, sessionAt (Some 500%Z)) /\
  startup sampleOptions (worldWith (Done (Some currentState)) (probeAnswer [900%Z]) None)
    (sessionAt None)
  = (Done tt, extend (afterRead sampleOptions (Some currentState) (sessionAt None))
                [ECreateBot (Some 500%Z)]).
Proof.
  assert (Hcase : Some currentState = None \/
            exists s, Some currentState = Some s /\
              (OffsetStore.tokenHash s = Some (tokenHash sampleOptions) \/
               OffsetStore.tokenHash s = Some EmptyString \/
               (OffsetStore.tokenHash s = None /\ OffsetStore.lastUpdateId s = None))).
  { right. exists currentState. split; [reflexivity | left; reflexivity]. }
  split.
  - apply (unchanged_token_keeps_checkpoint sampleOptions
             (worldWith (Done (Some currentState)) (probeAnswer [900%Z]) None)
             (Some currentState) (sessionAt (Some 500%Z)) Hcase).
  - apply (unchanged_token_keeps_checkpoint sampleOptions
             (worldWith (Done (Some currentState)) (probeAnswer [900%Z]) None)
             (Some currentState) (sessionAt None) Hcase); reflexivity.
Defined.

(** *** What startup may do to the store and the provider *)

(** Startup makes at most one catch-up request or one store write, never
    both, and a write it makes carries the account and the current
    fingerprint; after a change of token it writes nothing, so the
    reconciled checkpoint lives in memory only. *)
Theorem startup_probes_or_backfills (opts : Options) (world : World) (st : Session) :
  (exists events,
     (trace (snd (startup opts world st)) = trace st ++ events)%list /\
     (List.length (fetches events) + List.length (storeWrites events) <= 1)%nat /\
     forallb (currentWrite opts) events = true) /\
  (forall stored,
     storeRead world = Done (Some stored) ->
     fingerprintDiffers opts stored ->
     storeWrites (trace (snd (startup opts world st))) = storeWrites (trace st)).
Proof.
  assert (Hcases :
    isEmpty (token opts) = true /\ startup opts world st = (Raised (missingToken opts), st) \/
    (exists e, storeRead world = Raised e /\
       startup opts world st = (Raised e, extend st [EStoreRead (accountId opts)])) \/
    (exists stored, isEmpty (token opts) = false /\ storeRead world = Done stored /\
       startup opts world st
       = (Done tt,
          extend (snd (reconcile opts world stored (afterRead opts stored st)))
            [ECreateBot (lastUpdateId
                           (snd (reconcile opts world stored (afterRead opts stored st))))]))).
  { destruct (isEmpty (token opts)) eqn:Htoken.
    - left. split; [reflexivity|]. unfold startup. now rewrite Htoken.
    - right. destruct (storeRead world) as [stored | e] eqn:Hread.
      + right. exists stored. repeat split. now apply startup_phases.
      + left. exists e. split; [reflexivity | now apply read_failure_propagates]. }
  split.
  - destruct Hcases as [[_ ->] | [[e [_ ->]] | [stored [_ [_ ->]]]]].
    + exists []. cbn. rewrite app_nil_r. repeat split. lia.
    + exists [EStoreRead (accountId opts)]. cbn. repeat split. lia.
    + destruct (reconcile_effects opts world stored (afterRead opts stored st))
        as [events [Ht [_ [Hcur Hone]]]].
      cbn [snd extend trace]. rewrite Ht. cbn [afterRead trace].
      exists ([EStoreRead (accountId opts); EAssign (storedId stored)] ++ events
              ++ [ECreateBot (lastUpdateId
                    (snd (reconcile opts world stored (afterRead opts stored st))))])%list.
      split; [now rewrite <- !app_assoc|]. split.
      * rewrite !fetches_app, !storeWrites_app, !length_app. cbn. lia.
      * rewrite !forallb_app, Hcur. reflexivity.
  - intros stored Hread Hdiff.
    destruct Hcases as [[_ ->] | [[e [He _]] | [stored' [_ [Hread' ->]]]]];
      [reflexivity | congruence |].
    assert (stored' = Some stored) by congruence. subst stored'.
    pose proof (tokenChanged_true opts stored Hdiff) as Hchanged.
    destruct (reconcile_probe_total opts world (Some stored)
                (afterRead opts (Some stored) st) Hchanged) as [_ Hfetch].
    destruct (reconcile_effects opts world (Some stored) (afterRead opts (Some stored) st))
      as [events [Ht [_ [_ Hone]]]].
    cbn [snd extend trace]. rewrite Ht in *. rewrite fetches_app in Hfetch.
    apply app_inv_head in Hfetch. rewrite Hfetch in Hone. cbn in Hone.
    assert (Hnone : storeWrites events = []) by (destruct (storeWrites events); [reflexivity | cbn in Hone; lia]).
    cbn [afterRead trace]. rewrite !storeWrites_app, Hnone. cbn. now rewrite !app_nil_r.
Qed.

Lemma startup_probes_or_backfills_witness :
  storeWrites
    (trace (snd (startup sampleOptions
                   (worldWith (Done (Some staleState)) (probeAnswer [10; 7; 15]%Z) None)
                   (sessionAt None))))
  = storeWrites (trace (sessionAt None)).
Proof.
  apply (startup_probes_or_backfills sampleOptions
           (worldWith (Done (Some staleState)) (probeAnswer [10; 7; 15]%Z) None)
           (sessionAt None)) with (stored := staleState).
  - reflexivity.
  - exists "h-previous". split; [reflexivity|]. split; discriminate.
Defined.

(** *** The answer of the catch-up request *)

Lemma In_finiteNumbers (n : Z) (entries : list UpdateIdField) :
  In n (finiteNumbers entries) <-> In (IdNumber n) entries.
Proof.
  unfold finiteNumbers. rewrite in_flat_map. split.
  - intros [v [Hin Hn]]. destruct v; cbn in Hn; try contradiction.
    destruct Hn as [-> | []]. exact Hin.
  - intros Hin. exists (IdNumber n). split; [exact Hin | now left].
Qed.

(** After a change of token and an ok answer, entries of the answer
    whose [update_id] is missing, not a number or not finite are passed
    over: the checkpoint is the greatest finite id among the entries, and
    null when no entry has one, also when the answer has no [result]. *)
Theorem catch_up_passes_over_malformed_entries (opts : Options) (world : World)
    (stored : OffsetStore.StoredState) (st : Session) (status : Z) (j : ProbeJson) :
  fingerprintDiffers opts stored ->
  probe world = ProbeAnswers true status (Some j) ->
  json_ok j = true ->
  match lastUpdateId (snd (reconcile opts world (Some stored) st)) with
  | Some m =>
      isMaximumFiniteId m (match json_result j with Some r => r | None => [] end)
  | None =>
      forall n, ~ In (IdNumber n) (match json_result j with Some r => r | None => [] end)
  end.
Proof.
  intros Hdiff Hprobe Hok.
  rewrite (reconcile_probe_answered opts world (Some stored) st status j
             (tokenChanged_true opts stored Hdiff) Hprobe Hok).
  cbn [snd lastUpdateId].
  set (entries := match json_result j with Some r => r | None => [] end).
  pose proof (maxId_is_maximum (finiteNumbers entries)) as M.
  destruct (maxId (finiteNumbers entries)) as [m|] eqn:E.
  - destruct M as [Hin Hmax]. split.
    + now apply In_finiteNumbers.
    + intros n Hn. apply Hmax. now apply In_finiteNumbers.
  - cbn in M. intros n Hn. apply In_finiteNumbers in Hn. rewrite M in Hn. exact Hn.
Qed.

Lemma catch_up_passes_over_malformed_entries_witness :
  match lastUpdateId
          (snd (reconcile sampleOptions
                  (worldWith (Done (Some staleState))
                     (ProbeAnswers true 200
                        (Some {| json_ok := true; json_description := None;
                                 json_result := Some [IdNotANumber; IdNumber 4;
                                                      IdNotFinite; IdNumber 2] |}))
                     None)
                  (Some staleState) (sessionAt (Some 500%Z)))) with
  | Some m => isMaximumFiniteId m [IdNotANumber; IdNumber 4; IdNotFinite; IdNumber 2]
  | None => forall n, ~ In (IdNumber n) [IdNotANumber; IdNumber 4; IdNotFinite; IdNumber 2]
  end.
Proof.
  apply (catch_up_passes_over_malformed_entries sampleOptions
           (worldWith (Done (Some staleState))
              (ProbeAnswers true 200
                 (Some {| json_ok := true; json_description := None;
                          json_result := Some [IdNotANumber; IdNumber 4;
                                               IdNotFinite; IdNumber 2] |}))
              None)
           staleState (sessionAt (Some 500%Z)) 200%Z
           {| json_ok := true; json_description := None;
              json_result := Some [IdNotANumber; IdNumber 4; IdNotFinite; IdNumber 2] |}).
  - exists "h-previous". split; [reflexivity|]. split; discriminate.
  - reflexivity.
  - reflexivity.
Defined.

(** *** The bot and the two modes *)

(** When startup succeeds the bot is created once, as the last action of
    startup, and is seeded with the checkpoint as reconciliation left
    it. *)
Theorem bot_is_seeded_with_reconciled_checkpoint (opts : Options) (world : World)
    (st : Session) :
  fst (startup opts world st) = Done tt ->
  exists events,
    (trace (snd (startup opts world st))
     = trace st ++ events
       ++ [ECreateBot (lastUpdateId (snd (startup opts world st)))])%list /\
    botsCreated events = [].
Proof.
  intros Hdone.
  destruct (isEmpty (token opts)) eqn:Htoken.
  { unfold startup in Hdone. rewrite Htoken in Hdone. discriminate. }
  destruct (storeRead world) as [stored | e] eqn:Hread.
  2: { rewrite (read_failure_propagates opts world st e Htoken Hread) in Hdone.
       discriminate. }
  rewrite (startup_phases opts world stored st Htoken Hread).
  destruct (reconcile_effects opts world stored (afterRead opts stored st))
    as [events [Ht [Hev _]]].
  cbn [snd extend trace lastUpdateId]. rewrite Ht. cbn [afterRead trace].
  exists ([EStoreRead (accountId opts); EAssign (storedId stored)] ++ events)%list.
  split; [now rewrite <- !app_assoc|].
  rewrite botsCreated_app, (reconcile_events_census events Hev). reflexivity.
Qed.

Lemma bot_is_seeded_with_reconciled_checkpoint_witness :
  exists events,
    (trace (snd (startup sampleOptions
                   (worldWith (Done (Some staleState)) (probeAnswer [10; 7; 15]%Z) None)
                   (sessionAt None)))
     = trace (sessionAt None) ++ events
       ++ [ECreateBot
             (lastUpdateId
                (snd (startup sampleOptions
                        (worldWith (Done (Some staleState)) (probeAnswer [10; 7; 15]%Z) None)
                        (sessionAt None))))])%list /\
    botsCreated events = [].
Proof.
  apply (bot_is_seeded_with_reconciled_checkpoint sampleOptions
           (worldWith (Done (Some staleState)) (probeAnswer [10; 7; 15]%Z) None)
           (sessionAt None)).
  reflexivity.
Defined.

(** In webhook mode no poll worker is ever started, nothing is slept and
    the attempt counter stays as it was, whatever turns the environment
    offers; when startup succeeds the webhook is started exactly once and
    the entry point settles as that start does. *)
Theorem webhook_mode_runs_no_loop (env : Collaborators) (opts : Options)
    (world : World) (st : Session) :
  useWebhook opts = true ->
  workersStarted (trace (snd (monitorTelegramProvider env opts world st)))
  = workersStarted (trace st) /\
  sleeps (trace (snd (monitorTelegramProvider env opts world st))) = sleeps (trace st) /\
  restartAttempts (snd (monitorTelegramProvider env opts world st)) = restartAttempts st /\
  (fst (startup opts world st) = Done tt ->
   fst (monitorTelegramProvider env opts world st)
   = match webhookThrows world with
     | None => Done Returned
     | Some e => Raised e
     end /\
   webhooksStarted (trace (snd (monitorTelegramProvider env opts world st)))
   = S (webhooksStarted (trace st))).
Proof.
  intros Hhook. rewrite Supervisor.monitor_phases, Hhook.
  destruct (startup_frame opts world st) as [Hn [_ [events [Ht Hev]]]].
  destruct (startup_events_census events Hev) as [Hw [Hh Hs]].
  destruct (startup opts world st) as [[[]|e] st1]; cbn [fst snd] in *.
  - cbn [extend trace restartAttempts].
    rewrite Ht, !workersStarted_app, !sleeps_app, !webhooksStarted_app, Hw, Hh, Hs.
    cbn. rewrite !app_nil_r. repeat split; try lia; assumption.
  - rewrite Ht, workersStarted_app, sleeps_app, Hw, Hs. rewrite app_nil_r.
    repeat split; try lia; try assumption; discriminate.
Qed.

Lemma webhook_mode_runs_no_loop_witness :
  workersStarted
    (trace (snd (monitorTelegramProvider plainCollaborators webhookOptions
                   {| storeRead := Done None; probe := ProbeThrows VFalsy;
                      backfillThrows := None; webhookThrows := None;
                      runs := conflictDeliveriesConflict |}
                   (sessionAt None))))
  = workersStarted (trace (sessionAt None)) /\
  webhooksStarted
    (trace (snd (monitorTelegramProvider plainCollaborators webhookOptions
                   {| storeRead := Done None; probe := ProbeThrows VFalsy;
                      backfillThrows := None; webhookThrows := None;
                      runs := conflictDeliveriesConflict |}
                   (sessionAt None))))
  = S (webhooksStarted (trace (sessionAt None))).
Proof.
  destruct (webhook_mode_runs_no_loop plainCollaborators webhookOptions
              {| storeRead := Done None; probe := ProbeThrows VFalsy;
                 backfillThrows := None; webhookThrows := None;
                 runs := conflictDeliveriesConflict |}
              (sessionAt None) eq_refl) as [Hworkers [_ [_ Hstart]]].
  split; [exact Hworkers|]. apply Hstart. reflexivity.
Defined.

(** In poll mode, when cancellation is already active as the entry point
    is called, startup still runs in full (the store is read, the
    checkpoint reconciled, the bot created), and then the entry point
    returns without starting a worker. *)
Theorem cancelled_before_the_loop (env : Collaborators) (opts : Options)
    (world : World) (st : Session) :
  useWebhook opts = false ->
  aborted st = true ->
  fst (startup opts world st) = Done tt ->
  monitorTelegramProvider env opts world st
  = (Done Returned, snd (startup opts world st)) /\
  workersStarted (trace (snd (monitorTelegramProvider env opts world st)))
  = workersStarted (trace st).
Proof.
  intros Hpoll Hab Hdone. rewrite Supervisor.monitor_phases, Hpoll.
  destruct (startup_frame opts world st) as [_ [Hflag [events [Ht Hev]]]].
  destruct (startup_events_census events Hev) as [Hw _].
  destruct (startup opts world st) as [[[]|e] st1]; cbn [fst snd] in *; [|discriminate].
  rewrite loop_stops_when_cancelled by congruence.
  split; [reflexivity|]. cbn [snd]. rewrite Ht, workersStarted_app, Hw. lia.
Qed.

Lemma cancelled_before_the_loop_witness :
  monitorTelegramProvider plainCollaborators sampleOptions
    {| storeRead := Done (Some legacyState); probe := ProbeThrows VFalsy;
       backfillThrows := None; webhookThrows := None;
       runs := conflictDeliveriesConflict |}
    (initialSession true)
  = (Done Returned,
     snd (startup sampleOptions
            {| storeRead := Done (Some legacyState); probe := ProbeThrows VFalsy;
               backfillThrows := None; webhookThrows := None;
               runs := conflictDeliveriesConflict |}
            (initialSession true))).
Proof.
  apply (cancelled_before_the_loop plainCollaborators sampleOptions
           {| storeRead := Done (Some legacyState); probe := ProbeThrows VFalsy;
              backfillThrows := None; webhookThrows := None;
              runs := conflictDeliveriesConflict |}
           (initialSession true)); reflexivity.
Defined.

End EntryFacts.

(* ================================================================= *)
(** ** The restart loop: how it ends and what it counts *)

Module LoopCensus.

Import JsString Classifier Backoff Monitor Checkpoint CheckpointFacts.
Import Contract Turn Scenarios Startup Entry LoopFacts StartupFacts EntryFacts.
Local Open Scope nat_scope.

(** A worker whose task resolves ends the loop: the entry point returns,
    with no backoff and no further worker, although further turns are on
    offer. *)
Theorem clean_task_end_stops_the_loop (env : Collaborators) (opts : Options)
    (turn : Iteration) (later : list Iteration) (st : Session) :
  aborted st = false ->
  taskEnd turn = None ->
  pollLoop env opts (turn :: later) st = (Done Returned, afterWorker opts turn st) /\
  workersStarted (trace (afterWorker opts turn st)) = S (workersStarted (trace st)) /\
  sleeps (trace (afterWorker opts turn st)) = sleeps (trace st) /\
  restartAttempts (afterWorker opts turn st) = restartAttempts st.
Proof.
  intros Hab Hend. rewrite loop_turn by assumption. cbv zeta. rewrite Hend.
  destruct (afterWorker_readings opts turn st) as [Hw [Hs [_ Hn]]]. now repeat split.
Qed.

Lemma clean_task_end_stops_the_loop_witness :
  pollLoop plainCollaborators sampleOptions
    ({| deliveries := [delivery 5]; abortWhileRunning := false; taskEnd := None;
        draw := 0; backoffSleep := sleepOfAttempt 1 None |} :: conflictDeliveriesConflict)
    (sessionAt None)
  = (Done Returned,
     afterWorker sampleOptions
       {| deliveries := [delivery 5]; abortWhileRunning := false; taskEnd := None;
          draw := 0; backoffSleep := sleepOfAttempt 1 None |} (sessionAt None)).
Proof.
  apply (clean_task_end_stops_the_loop plainCollaborators sampleOptions
           {| deliveries := [delivery 5]; abortWhileRunning := false; taskEnd := None;
              draw := 0; backoffSleep := sleepOfAttempt 1 None |}
           conflictDeliveriesConflict (sessionAt None)); reflexivity.
Defined.

(** When the backoff sleep itself fails while cancellation is inactive,
    it is the error of the sleep that the loop throws, not the error of
    the worker, and no new worker is started. *)
Theorem sleep_failure_is_thrown (env : Collaborators) (opts : Options)
    (turn : Iteration) (later : list Iteration) (st : Session)
    (err sleepErr : JsVal) :
  aborted st = false ->
  abortWhileRunning turn = false ->
  taskEnd turn = Some err ->
  classify env err <> fatal ->
  sleepRejects (backoffSleep turn) = Some sleepErr ->
  abortFiredMeanwhile (backoffSleep turn) = false ->
  pollLoop env opts (turn :: later) st
  = (Raised sleepErr, backingOff env err turn (afterWorker opts turn st)).
Proof.
  intros Hab Hrun Hend Hcls Hsleep Hquiet.
  rewrite loop_turn by assumption. cbv zeta. rewrite Hend.
  rewrite afterWorker_aborted, Hab, Hrun. cbn [orb].
  unfold afterSleep. rewrite Hsleep, Hquiet. cbn [backingOff aborted].
  rewrite afterWorker_aborted, Hab, Hrun. cbn [orb].
  destruct (classify env err); congruence.
Qed.

Lemma sleep_failure_is_thrown_witness :
  pollLoop plainCollaborators sampleOptions
    [{| deliveries := []; abortWhileRunning := false;
        taskEnd := Some getUpdatesConflictError; draw := 0;
        backoffSleep := {| sleepRejects := Some (VPrimitive "ERR_OUT_OF_RANGE");
                           abortFiredMeanwhile := false; elapsedMs := 0 |} |}]
    (sessionAt None)
  = (Raised (VPrimitive "ERR_OUT_OF_RANGE"),
     backingOff plainCollaborators getUpdatesConflictError
       {| deliveries := []; abortWhileRunning := false;
          taskEnd := Some getUpdatesConflictError; draw := 0;
          backoffSleep := {| sleepRejects := Some (VPrimitive "ERR_OUT_OF_RANGE");
                             abortFiredMeanwhile := false; elapsedMs := 0 |} |}
       (afterWorker sampleOptions
          {| deliveries := []; abortWhileRunning := false;
             taskEnd := Some getUpdatesConflictError; draw := 0;
             backoffSleep := {| sleepRejects := Some (VPrimitive "ERR_OUT_OF_RANGE");
                                abortFiredMeanwhile := false; elapsedMs := 0 |} |}
          (sessionAt None))).
Proof.
  apply (sleep_failure_is_thrown plainCollaborators sampleOptions
           {| deliveries := []; abortWhileRunning := false;
              taskEnd := Some getUpdatesConflictError; draw := 0;
              backoffSleep := {| sleepRejects := Some (VPrimitive "ERR_OUT_OF_RANGE");
                                 abortFiredMeanwhile := false; elapsedMs := 0 |} |}
           [] (sessionAt None) getUpdatesConflictError (VPrimitive "ERR_OUT_OF_RANGE"));
    try reflexivity.
  vm_compute. discriminate.
Defined.

(** *** Counting restarts, sleeps and workers *)

(** The three ways startup can end. *)
Lemma startup_cases (opts : Options) (world : World) (st : Session) :
  (isEmpty (token opts) = true /\
   startup opts world st = (Raised (missingToken opts), st)) \/
  (exists e, storeRead world = Raised e /\
     startup opts world st = (Raised e, extend st [EStoreRead (accountId opts)])) \/
  (exists stored, storeRead world = Done stored /\
     startup opts world st
     = (Done tt,
        extend (snd (reconcile opts world stored (afterRead opts stored st)))
          [ECreateBot (lastUpdateId
                         (snd (reconcile opts world stored (afterRead opts stored st))))])).
Proof.
  destruct (isEmpty (token opts)) eqn:Htoken.
  - left. split; [reflexivity|]. unfold startup. now rewrite Htoken.
  - right. destruct (storeRead world) as [stored | e] eqn:Hread.
    + right. exists stored. split; [reflexivity | now apply startup_phases].
    + left. exists e. split; [reflexivity | now apply read_failure_propagates].
Qed.

Lemma retryDelays_app (a b : list Effect) :
  retryDelays (a ++ b) = (retryDelays a ++ retryDelays b)%list.
Proof. unfold retryDelays. apply flat_map_app. Qed.

Lemma reconcile_logs_no_retry (opts : Options) (world : World)
    (stored : option OffsetStore.StoredState) (st : Session) :
  retryDelays (trace (snd (reconcile opts world stored st))) = retryDelays (trace st).
Proof.
  unfold reconcile. destruct (tokenChanged opts stored).
  - destruct (probe world) as [err | [|] status [[[|] text result]|]];
      run_startup; cbn; rewrite !retryDelays_app; cbn; now rewrite !app_nil_r.
  - destruct (needsBackfill stored) as [id|]; [destruct (backfillThrows world)|];
      run_startup; cbn; rewrite ?retryDelays_app; cbn; now rewrite ?app_nil_r.
Qed.

Lemma startup_logs_no_retry (opts : Options) (world : World) (st : Session) :
  retryDelays (trace (snd (startup opts world st))) = retryDelays (trace st).
Proof.
  destruct (startup_cases opts world st) as [[_ ->] | [[e [_ ->]] | [stored [_ ->]]]];
    cbn [snd extend trace].
  - reflexivity.
  - rewrite retryDelays_app. cbn. now rewrite app_nil_r.
  - rewrite retryDelays_app, reconcile_logs_no_retry. cbn [afterRead trace].
    rewrite retryDelays_app. cbn. now rewrite !app_nil_r.
Qed.

Lemma checkpoint_events_log_no_retry (t : list Effect) :
  forallb checkpointEvent t = true -> retryDelays t = [].
Proof.
  induction t as [|e t IH]; [reflexivity|].
  cbn [forallb]. intros H. apply andb_true_iff in H as [He Ht].
  destruct e as [| | |[]|[]| | | | | | |]; cbn in He; try discriminate; cbn; auto.
Qed.

(** Through the loop every sleep is logged with its delay and counted by
    the attempt counter. *)
Lemma loop_logs_its_sleeps (env : Collaborators) (opts : Options)
    (script : list Iteration) (st : Session) :
  List.length (sleeps (trace st)) = restartAttempts st ->
  retryDelays (trace st) = sleeps (trace st) ->
  List.length (sleeps (trace (snd (pollLoop env opts script st))))
  = restartAttempts (snd (pollLoop env opts script st)) /\
  retryDelays (trace (snd (pollLoop env opts script st)))
  = sleeps (trace (snd (pollLoop env opts script st))).
Proof.
  intros Hn Hd.
  apply (loop_invariant env opts
           (fun s => List.length (sleeps (trace s)) = restartAttempts s /\
                     retryDelays (trace s) = sleeps (trace s))).
  - intros s _ [H1 H2]. cbn [extend trace restartAttempts].
    rewrite sleeps_app, retryDelays_app, H2. cbn. rewrite !app_nil_r. now split.
  - intros s ds [H1 H2].
    pose proof (persistTrace_events opts ds (lastUpdateId s)) as Hev.
    destruct (checkpoint_events_readings _ Hev) as [_ [Hs _]].
    rewrite delivered_trace, delivered_restartAttempts, sleeps_app, retryDelays_app,
      Hs, (checkpoint_events_log_no_retry _ Hev), H2, !app_nil_r. now split.
  - intros s [H1 H2]. cbn [cancel trace restartAttempts].
    rewrite sleeps_app, retryDelays_app, H2. cbn. rewrite !app_nil_r. now split.
  - intros s err turn _ [H1 H2]. cbn [backingOff trace restartAttempts].
    rewrite sleeps_app, retryDelays_app, H2, length_app. cbn. split; [lia | reflexivity].
  - now split.
Qed.

Lemma backoff_readings (env : Collaborators) (err : JsVal) (turn : Iteration)
    (st : Session) :
  workersStarted (trace (afterSleep (backoffSleep turn) (backingOff env err turn st)))
  = workersStarted (trace st) /\
  restartAttempts (afterSleep (backoffSleep turn) (backingOff env err turn st))
  = S (restartAttempts st).
Proof.
  unfold afterSleep. destruct (abortFiredMeanwhile (backoffSleep turn));
    cbn [cancel backingOff trace restartAttempts];
    rewrite !workersStarted_app; cbn; split; lia.
Qed.

(** Workers and restarts keep step: each restart follows a worker, and
    each worker but the first follows a restart. *)
Lemma loop_workers_and_restarts (env : Collaborators) (opts : Options)
    (script : list Iteration) (st : Session) :
  restartAttempts (snd (pollLoop env opts script st)) + workersStarted (trace st)
  <= workersStarted (trace (snd (pollLoop env opts script st))) + restartAttempts st /\
  workersStarted (trace (snd (pollLoop env opts script st))) + restartAttempts st
  <= S (restartAttempts (snd (pollLoop env opts script st)) + workersStarted (trace st)).
Proof.
  revert st; induction script as [|turn later IH]; intros st;
    destruct (aborted st) eqn:Hab.
  - rewrite loop_stops_when_cancelled by assumption. cbn. lia.
  - rewrite loop_out_of_turns by assumption. cbn [snd extend trace restartAttempts].
    rewrite workersStarted_app. cbn. lia.
  - rewrite loop_stops_when_cancelled by assumption. cbn. lia.
  - rewrite loop_turn by assumption. cbv zeta.
    destruct (afterWorker_readings opts turn st) as [Hw [_ [_ Hn]]].
    destruct (taskEnd turn) as [err|]; [|cbn [snd]; lia].
    destruct (aborted (afterWorker opts turn st)); [cbn [snd]; lia|].
    destruct (backoff_readings env err turn (afterWorker opts turn st)) as [Hw3 Hn3].
    specialize (IH (afterSleep (backoffSleep turn)
                      (backingOff env err turn (afterWorker opts turn st)))).
    destruct (classify env err); try (cbn [snd]; lia);
      (destruct (sleepRejects (backoffSleep turn));
       [ destruct (aborted (afterSleep _ _)); cbn [snd]; lia | lia ]).
Qed.

(** *** Workers start rested *)

Lemma startsRested_app (rested : bool) (a b : list Effect) :
  startsRested rested (a ++ b)
  = startsRested rested a && startsRested (restedAfter rested a) b.
Proof.
  revert rested; induction a as [|e a IH]; intros rested; [reflexivity|].
  destruct e; cbn [app startsRested restedAfter]; rewrite ?IH; try reflexivity.
  now rewrite andb_assoc.
Qed.

Lemma restedAfter_app (rested : bool) (a b : list Effect) :
  restedAfter rested (a ++ b) = restedAfter (restedAfter rested a) b.
Proof.
  revert rested; induction a as [|e a IH]; intros rested; [reflexivity|].
  destruct e; cbn [app restedAfter]; now rewrite ?IH.
Qed.

Lemma checkpoint_events_keep_rest (rested : bool) (t : list Effect) :
  forallb checkpointEvent t = true ->
  startsRested rested t = true /\ restedAfter rested t = rested.
Proof.
  induction t as [|e t IH]; [now split|].
  cbn [forallb]. intros H. apply andb_true_iff in H as [He Ht].
  destruct e as [| | |[]|[]| | | | | | |]; cbn in He; try discriminate;
    cbn [startsRested restedAfter]; now apply IH.
Qed.

Lemma startup_events_keep_rest (rested : bool) (t : list Effect) :
  forallb startupEvent t = true ->
  startsRested rested t = true /\ restedAfter rested t = rested.
Proof.
  induction t as [|e t IH]; [now split|].
  cbn [forallb]. intros H. apply andb_true_iff in H as [He Ht].
  destruct e; cbn in He; try discriminate;
    cbn [startsRested restedAfter]; now apply IH.
Qed.

(** A worker started rested leaves the session unrested, whatever it
    delivers and whether or not the signal fires meanwhile. *)
Lemma afterWorker_rest (opts : Options) (turn : Iteration) (st : Session) :
  startsRested true (trace st) = true ->
  restedAfter true (trace st) = true ->
  startsRested true (trace (afterWorker opts turn st)) = true /\
  restedAfter true (trace (afterWorker opts turn st)) = false.
Proof.
  intros Hs Hr.
  destruct (checkpoint_events_keep_rest false _
              (persistTrace_events opts (deliveries turn) (lastUpdateId st)))
    as [Hp1 Hp2].
  unfold afterWorker. destruct (abortWhileRunning turn);
    cbn [cancel trace]; rewrite delivered_trace; cbn [extend trace lastUpdateId];
    rewrite !startsRested_app, !restedAfter_app, Hs, Hr; cbn;
    rewrite Hp1, Hp2; now split.
Qed.

(** The backoff sleep rests the session again. *)
Lemma backoff_rest (env : Collaborators) (err : JsVal) (turn : Iteration)
    (st : Session) :
  startsRested true (trace st) = true ->
  startsRested true
    (trace (afterSleep (backoffSleep turn) (backingOff env err turn st))) = true /\
  restedAfter true
    (trace (afterSleep (backoffSleep turn) (backingOff env err turn st))) = true.
Proof.
  intros Hs. unfold afterSleep. destruct (abortFiredMeanwhile (backoffSleep turn));
    cbn [cancel backingOff trace];
    rewrite !startsRested_app, !restedAfter_app, Hs; cbn; now split.
Qed.

Lemma loop_starts_workers_rested (env : Collaborators) (opts : Options)
    (script : list Iteration) (st : Session) :
  startsRested true (trace st) = true ->
  restedAfter true (trace st) = true ->
  startsRested true (trace (snd (pollLoop env opts script st))) = true.
Proof.
  revert st; induction script as [|turn later IH]; intros st Hs Hr;
    destruct (aborted st) eqn:Hab.
  - now rewrite loop_stops_when_cancelled.
  - rewrite loop_out_of_turns by assumption. cbn [snd extend trace].
    rewrite startsRested_app, Hs, Hr. reflexivity.
  - now rewrite loop_stops_when_cancelled.
  - rewrite loop_turn by assumption. cbv zeta.
    destruct (afterWorker_rest opts turn st Hs Hr) as [Hs1 _].
    destruct (taskEnd turn) as [err|]; [|exact Hs1].
    destruct (aborted (afterWorker opts turn st)); [exact Hs1|].
    destruct (backoff_rest env err turn (afterWorker opts turn st) Hs1) as [Hs3 Hr3].
    destruct (classify env err); try exact Hs1;
      (destruct (sleepRejects (backoffSleep turn));
       [ destruct (aborted (afterSleep _ _)); exact Hs3 | now apply IH ]).
Qed.

(** In every run of the entry point, every backoff sleep is counted by
    the attempt counter, the number of workers started is the number of
    restarts or one more, and the trace is in step: every worker but the
    first is started only after a backoff sleep that came after the
    worker before it. *)
Theorem restarts_sleeps_and_workers (env : Collaborators) (opts : Options)
    (world : World) (fired : bool) :
  List.length
    (sleeps (trace (snd (monitorTelegramProvider env opts world (initialSession fired)))))
  = restartAttempts (snd (monitorTelegramProvider env opts world (initialSession fired))) /\
  restartAttempts (snd (monitorTelegramProvider env opts world (initialSession fired)))
  <= workersStarted
       (trace (snd (monitorTelegramProvider env opts world (initialSession fired)))) /\
  workersStarted
    (trace (snd (monitorTelegramProvider env opts world (initialSession fired))))
  <= S (restartAttempts
          (snd (monitorTelegramProvider env opts world (initialSession fired)))) /\
  startsRested true
    (trace (snd (monitorTelegramProvider env opts world (initialSession fired)))) = true.
Proof.
  rewrite Supervisor.monitor_phases.
  destruct (startup_frame opts world (initialSession fired)) as [Hn [_ [events [Ht Hev]]]].
  destruct (startup_events_census events Hev) as [Hw [_ Hs]].
  destruct (startup_events_keep_rest true events Hev) as [Hrest Hafter].
  pose proof (startup_logs_no_retry opts world (initialSession fired)) as Hr.
  assert (Hrest1 : startsRested true (trace (snd (startup opts world (initialSession fired)))) = true
                   /\ restedAfter true (trace (snd (startup opts world (initialSession fired)))) = true).
  { rewrite Ht, startsRested_app, restedAfter_app.
    destruct fired; cbn; now rewrite Hrest, Hafter. }
  destruct Hrest1 as [Hrs Hra].
  destruct (startup opts world (initialSession fired)) as [[[]|e] st1]; cbn [snd] in *.
  2: { split; [|split; [|split]]; try exact Hrs;
         rewrite ?Ht, ?sleeps_app, ?workersStarted_app, ?Hs, ?Hw, ?Hn;
         destruct fired; cbn; lia. }
  assert (Hs1 : sleeps (trace st1) = []).
  { rewrite Ht, sleeps_app, Hs. now destruct fired. }
  assert (Hw1 : workersStarted (trace st1) = 0).
  { rewrite Ht, workersStarted_app, Hw. now destruct fired. }
  assert (Hn1 : restartAttempts st1 = 0) by (rewrite Hn; reflexivity).
  destruct (useWebhook opts).
  - cbn [snd extend trace restartAttempts].
    rewrite sleeps_app, workersStarted_app, startsRested_app, Hs1, Hw1, Hn1, Hrs.
    cbn. repeat split; lia.
  - destruct (loop_logs_its_sleeps env opts (runs world) st1) as [Hcount _].
    + now rewrite Hs1, Hn1.
    + rewrite Hs1. rewrite Hr. now destruct fired.
    + pose proof (loop_workers_and_restarts env opts (runs world) st1) as [Hlow Hup].
      split; [exact Hcount|]. split; [lia|]. split; [lia|].
      now apply loop_starts_workers_rested.
Qed.

(** Every retry is announced: right after a recoverable failure caught
    with cancellation inactive the loop logs one line with the reason
    (conflict when the error is a getUpdates conflict, network error
    otherwise), the rendered error and the delay, and then sleeps for
    exactly that delay; and in every run of the entry point the delays
    logged are the delays slept, in order. *)
Theorem retry_is_logged_with_its_delay (env : Collaborators) (opts : Options) :
  (forall turn later st err,
     aborted st = false ->
     abortWhileRunning turn = false ->
     taskEnd turn = Some err ->
     classify env err <> fatal ->
     exists more,
       (trace (snd (pollLoop env opts (turn :: later) st))
        = trace (afterWorker opts turn st)
          ++ [EComputeBackoff (S (restartAttempts st));
              ELog (LogRetry
                      (if isGetUpdatesConflict err
                       then "getUpdates conflict" else "network error")%string
                      (formatErrorMessage env err)
                      (computeBackoff TELEGRAM_POLL_RESTART_POLICY
                         (S (restartAttempts st)) (draw turn)));
              ESleep (computeBackoff TELEGRAM_POLL_RESTART_POLICY
                        (S (restartAttempts st)) (draw turn)) OptsAbortSignal]
          ++ more)%list) /\
  (forall world fired,
     retryDelays
       (trace (snd (monitorTelegramProvider env opts world (initialSession fired))))
     = sleeps
         (trace (snd (monitorTelegramProvider env opts world (initialSession fired))))).
Proof.
  split.
  - intros turn later st err Hab Hrun Hend Hcls.
    destruct (Supervisor.turn_backs_off env opts turn later st err Hab Hrun Hend Hcls) as [more E].
    destruct (afterWorker_readings opts turn st) as [_ [_ [_ Hn]]].
    exists more. rewrite E. cbn [backingOff trace]. unfold backoffDelay. rewrite Hn.
    assert (Hreason : retryReason (classify env err)
                      = (if isGetUpdatesConflict err
                         then "getUpdates conflict" else "network error")%string).
    { unfold classify in *. destruct (isGetUpdatesConflict err);
        destruct (isRecoverableTelegramNetworkError env err);
        destruct (isNetworkRelatedError (formatErrorMessage env) err);
        cbn in *; congruence. }
    rewrite Hreason. now rewrite <- app_assoc.
  - intros world fired. rewrite Supervisor.monitor_phases.
    destruct (startup_frame opts world (initialSession fired))
      as [Hn [_ [events [Ht Hev]]]].
    destruct (startup_events_census events Hev) as [_ [_ Hs]].
    pose proof (startup_logs_no_retry opts world (initialSession fired)) as Hr.
    assert (Hs1 : sleeps (trace (snd (startup opts world (initialSession fired)))) = []).
    { rewrite Ht, sleeps_app, Hs. now destruct fired. }
    assert (Hr1 : retryDelays (trace (snd (startup opts world (initialSession fired)))) = []).
    { rewrite Hr. now destruct fired. }
    destruct (startup opts world (initialSession fired)) as [[[]|e] st1]; cbn [snd] in *.
    2: { now rewrite Hs1, Hr1. }
    destruct (useWebhook opts).
    + cbn [snd extend trace]. now rewrite sleeps_app, retryDelays_app, Hs1, Hr1.
    + apply loop_logs_its_sleeps; [now rewrite Hs1, Hn | now rewrite Hs1, Hr1].
Qed.

Lemma retry_is_logged_with_its_delay_witness :
  exists more,
    (trace (snd (pollLoop plainCollaborators sampleOptions [conflictTurn] (sessionAt None)))
     = trace (afterWorker sampleOptions conflictTurn (sessionAt None))
       ++ [EComputeBackoff 1;
           ELog (LogRetry "getUpdates conflict"
                   (formatErrorMessage plainCollaborators getUpdatesConflictError)
                   (computeBackoff TELEGRAM_POLL_RESTART_POLICY 1 (draw conflictTurn)));
           ESleep (computeBackoff TELEGRAM_POLL_RESTART_POLICY 1 (draw conflictTurn))
             OptsAbortSignal]
       ++ more)%list.
Proof.
  destruct (retry_is_logged_with_its_delay plainCollaborators sampleOptions) as [Hturn _].
  apply (Hturn conflictTurn [] (sessionAt None) getUpdatesConflictError);
    try reflexivity.
  vm_compute. discriminate.
Defined.

(** *** No limit on restarts *)

(** The loop has no maximum number of attempts: as long as every worker
    fails recoverably and every backoff sleep runs to its end with
    cancellation inactive, each turn is followed by a fresh worker, and
    after [n] such turns the counter has grown by [n] and [n + 1] workers
    have been started. *)
Theorem restarts_have_no_limit (env : Collaborators) (opts : Options)
    (script : list Iteration) (st : Session) :
  aborted st = false ->
  forallb (restartingTurn env) script = true ->
  fst (pollLoop env opts script st) = Done WorkerPending /\
  restartAttempts (snd (pollLoop env opts script st))
  = restartAttempts st + List.length script /\
  workersStarted (trace (snd (pollLoop env opts script st)))
  = workersStarted (trace st) + S (List.length script).
Proof.
  revert st; induction script as [|turn later IH]; intros st Hab Hall.
  - rewrite loop_out_of_turns by assumption. cbn [fst snd extend trace restartAttempts].
    rewrite workersStarted_app. cbn. repeat split; lia.
  - cbn [forallb] in Hall. apply andb_true_iff in Hall as [Hturn Hlater].
    unfold restartingTurn in Hturn.
    apply andb_true_iff in Hturn as [Hturn Hquiet].
    apply andb_true_iff in Hturn as [Hturn Hsleep].
    apply andb_true_iff in Hturn as [Hrun Hend].
    apply negb_true_iff in Hrun, Hquiet.
    rewrite loop_turn by assumption. cbv zeta.
    destruct (taskEnd turn) as [err|]; [|discriminate].
    rewrite afterWorker_aborted, Hab, Hrun. cbn [orb].
    destruct (sleepRejects (backoffSleep turn)); [discriminate|].
    destruct (afterWorker_readings opts turn st) as [Hw [_ [_ Hn]]].
    destruct (backoff_readings env err turn (afterWorker opts turn st)) as [Hw3 Hn3].
    assert (Hab3 : aborted (afterSleep (backoffSleep turn)
                              (backingOff env err turn (afterWorker opts turn st))) = false).
    { unfold afterSleep. rewrite Hquiet. cbn [backingOff aborted].
      now rewrite afterWorker_aborted, Hab, Hrun. }
    destruct (IH _ Hab3 Hlater) as [Hres [Hcount Hworkers]].
    destruct (classify env err); try discriminate;
      (split; [exact Hres|]; cbn [List.length]; split; lia).
Qed.

Lemma restarts_have_no_limit_witness :
  fst (pollLoop plainCollaborators sampleOptions conflictDeliveriesConflict (sessionAt None))
  = Done WorkerPending /\
  restartAttempts
    (snd (pollLoop plainCollaborators sampleOptions conflictDeliveriesConflict
            (sessionAt None)))
  = restartAttempts (sessionAt None) + List.length conflictDeliveriesConflict /\
  workersStarted
    (trace (snd (pollLoop plainCollaborators sampleOptions conflictDeliveriesConflict
                   (sessionAt None))))
  = workersStarted (trace (sessionAt None)) + S (List.length conflictDeliveriesConflict).
Proof.
  apply (restarts_have_no_limit plainCollaborators sampleOptions
           conflictDeliveriesConflict (sessionAt None)).
  - reflexivity.
  - vm_compute. reflexivity.
Defined.

End LoopCensus.

(* ================================================================= *)
(** ** What reaches the store *)

Module WriteFacts.

Import JsString Classifier Backoff Monitor Checkpoint CheckpointFacts.
Import Contract Turn Scenarios Startup Entry LoopFacts StartupFacts EntryFacts LoopCensus.
Local Open Scope Z_scope.

(** After any call of the callback, whether or not its store write
    failed, a call with the same or a smaller id does nothing: a failed
    write is not made up for until a greater id arrives. *)
Theorem stale_ids_are_skipped_after_any_call (opts : Options) (d1 d2 : Delivery)
    (st : Session) :
  updateId d2 <= updateId d1 ->
  persistUpdateId opts d2 (snd (persistUpdateId opts d1 st))
  = (Done tt, snd (persistUpdateId opts d1 st)).
Proof.
  intros Hle.
  apply persist_skips with
    (last := match lastUpdateId st with
             | Some last => Z.max last (updateId d1)
             | None => updateId d1
             end).
  - apply persist_checkpoint.
  - destruct (lastUpdateId st); lia.
Qed.

Lemma stale_ids_are_skipped_after_any_call_witness :
  persistUpdateId sampleOptions (delivery 501)
    (snd (persistUpdateId sampleOptions (failingDelivery 501) (sessionAt (Some 500))))
  = (Done tt, snd (persistUpdateId sampleOptions (failingDelivery 501) (sessionAt (Some 500)))).
Proof.
  apply (stale_ids_are_skipped_after_any_call sampleOptions (failingDelivery 501)
           (delivery 501) (sessionAt (Some 500))).
  cbn. lia.
Defined.

(** *** The order of the writes *)

Lemma sorted_snoc (l : list Z) (a : Z) :
  StronglySorted Z.lt l ->
  (forall x, In x l -> x < a) ->
  StronglySorted Z.lt (l ++ [a]).
Proof.
  induction l as [|b l IH]; intros Hs Hlt; cbn.
  - constructor; constructor.
  - apply StronglySorted_inv in Hs as [Hs Hb]. constructor.
    + apply IH; [exact Hs | intros x Hx; apply Hlt; now right].
    + apply Forall_app. split; [exact Hb|].
      constructor; [apply Hlt; now left | constructor].
Qed.

Lemma persist_keeps_order (opts : Options) (d : Delivery) (s : Session) :
  writesInOrder s -> writesInOrder (snd (persistUpdateId opts d s)).
Proof.
  intros [Hsorted Hbound].
  destruct (persist_cases opts d s) as [[_ ->] | [Hguard ->]]; cbn [snd];
    [now split|].
  unfold writesInOrder. cbn [advanced trace lastUpdateId].
  assert (Hwrites : storeWrites
                      (trace s ++ [EAssign (Some (updateId d));
                                   EStoreWrite (accountId opts) (updateId d) (tokenHash opts)]
                       ++ persistLog d)
                    = (storeWrites (trace s) ++ [updateId d])%list).
  { rewrite !storeWrites_app. unfold persistLog. now destruct (writeThrows d). }
  rewrite Hwrites.
  assert (Hbelow : forall x, In x (storeWrites (trace s)) -> x < updateId d).
  { intros x Hx. destruct (Hbound x Hx) as [c [Hc Hxc]]. rewrite Hc in Hguard.
    apply Z.leb_gt in Hguard. lia. }
  split.
  - now apply sorted_snoc.
  - intros x Hx. exists (updateId d). split; [reflexivity|].
    apply in_app_iff in Hx as [Hx | [<- | []]]; [|lia].
    specialize (Hbelow x Hx). lia.
Qed.

Lemma delivered_keeps_order (opts : Options) (ds : list Delivery) (s : Session) :
  writesInOrder s -> writesInOrder (delivered opts ds s).
Proof.
  revert s; induction ds as [|d ds IH]; intros s Hs; [exact Hs|].
  rewrite delivered_cons. apply IH. now apply persist_keeps_order.
Qed.

Lemma order_ignores_other_events (s s' : Session) :
  storeWrites (trace s') = storeWrites (trace s) ->
  lastUpdateId s' = lastUpdateId s ->
  writesInOrder s -> writesInOrder s'.
Proof. unfold writesInOrder. intros -> ->. tauto. Qed.

Lemma loop_keeps_order (env : Collaborators) (opts : Options)
    (script : list Iteration) (st : Session) :
  writesInOrder st -> writesInOrder (snd (pollLoop env opts script st)).
Proof.
  apply (loop_invariant env opts writesInOrder).
  - intros s _. apply order_ignores_other_events; [|reflexivity].
    cbn. rewrite storeWrites_app. cbn. now rewrite app_nil_r.
  - intros s ds. apply delivered_keeps_order.
  - intros s. apply order_ignores_other_events; [|reflexivity].
    cbn. rewrite storeWrites_app. cbn. now rewrite app_nil_r.
  - intros s err turn _. apply order_ignores_other_events; [|reflexivity].
    cbn. rewrite storeWrites_app. cbn. now rewrite app_nil_r.
Qed.

Lemma needsBackfill_storedId (stored : option OffsetStore.StoredState) (id : Z) :
  needsBackfill stored = Some id -> storedId stored = Some id.
Proof.
  unfold needsBackfill, storedId. destruct stored as [s|]; [|discriminate].
  now destruct (OffsetStore.tokenHash s).
Qed.

Lemma reconcile_keeps_order (opts : Options) (world : World)
    (stored : option OffsetStore.StoredState) (st : Session) :
  storeWrites (trace st) = [] ->
  lastUpdateId st = storedId stored ->
  writesInOrder (snd (reconcile opts world stored st)).
Proof.
  intros Hnone Hid. unfold writesInOrder, reconcile.
  destruct (tokenChanged opts stored).
  - destruct (probe world) as [err | [|] status [[[|] text result]|]];
      run_startup; cbn; rewrite !storeWrites_app, Hnone; cbn;
      (split; [constructor | intros x []]).
  - destruct (needsBackfill stored) as [id|] eqn:Hfill.
    + apply needsBackfill_storedId in Hfill.
      destruct (backfillThrows world); run_startup; cbn;
        rewrite !storeWrites_app, Hnone; cbn;
        (split; [repeat constructor|]; intros x [<- | []]; exists id;
         split; [congruence | lia]).
    + cbn. rewrite Hnone. split; [constructor | intros x []].
Qed.

Lemma persistTrace_writes_are_current (opts : Options) (ds : list Delivery)
    (current : option Z) :
  forallb (currentWrite opts) (persistTrace opts current ds) = true.
Proof.
  revert current; induction ds as [|d ds IH]; intros current; [reflexivity|].
  cbn [persistTrace].
  destruct (match current with Some last => updateId d <=? last | None => false end).
  - apply IH.
  - cbn [app forallb currentWrite]. rewrite !String.eqb_refl, forallb_app, IH.
    unfold persistLog. now destruct (writeThrows d).
Qed.

Lemma loop_writes_are_current (env : Collaborators) (opts : Options)
    (script : list Iteration) (st : Session) :
  forallb (currentWrite opts) (trace st) = true ->
  forallb (currentWrite opts) (trace (snd (pollLoop env opts script st))) = true.
Proof.
  apply (loop_invariant env opts
           (fun s => forallb (currentWrite opts) (trace s) = true)).
  - intros s _ H. cbn. now rewrite forallb_app, H.
  - intros s ds H. now rewrite delivered_trace, forallb_app, H, persistTrace_writes_are_current.
  - intros s H. cbn. now rewrite forallb_app, H.
  - intros s err turn _ H. cbn. now rewrite forallb_app, H.
Qed.

(** In every run of the entry point the ids handed to the store, the
    backfill write of startup included, are in strictly increasing order,
    and every write carries the account and the fingerprint of the
    current token. *)
Theorem store_writes_only_increase (env : Collaborators) (opts : Options)
    (world : World) (fired : bool) :
  StronglySorted Z.lt
    (storeWrites
       (trace (snd (monitorTelegramProvider env opts world (initialSession fired))))) /\
  forallb (currentWrite opts)
    (trace (snd (monitorTelegramProvider env opts world (initialSession fired)))) = true.
Proof.
  assert (Hstart : storeWrites (trace (initialSession fired)) = []) by now destruct fired.
  assert (Hcur : forallb (currentWrite opts) (trace (initialSession fired)) = true)
    by now destruct fired.
  rewrite Supervisor.monitor_phases.
  destruct (startup_cases opts world (initialSession fired))
    as [[_ ->] | [[e [_ ->]] | [stored [_ ->]]]].
  - cbn [snd]. rewrite Hstart, Hcur. split; [constructor | reflexivity].
  - cbn [snd extend trace]. rewrite storeWrites_app, forallb_app, Hstart, Hcur.
    split; [constructor | reflexivity].
  - set (s2 := snd (reconcile opts world stored (afterRead opts stored (initialSession fired)))).
    assert (Horder : writesInOrder s2).
    { apply reconcile_keeps_order; [|reflexivity].
      cbn [afterRead trace]. rewrite storeWrites_app, Hstart. reflexivity. }
    assert (Hcur2 : forallb (currentWrite opts) (trace s2) = true).
    { destruct (reconcile_effects opts world stored
                  (afterRead opts stored (initialSession fired)))
        as [events [Ht [_ [Hev _]]]].
      unfold s2. rewrite Ht. cbn [afterRead trace].
      now rewrite !forallb_app, Hcur, Hev. }
    assert (Horder3 : writesInOrder (extend s2 [ECreateBot (lastUpdateId s2)])).
    { apply (order_ignores_other_events s2); [|reflexivity|exact Horder].
      cbn. rewrite storeWrites_app. cbn. now rewrite app_nil_r. }
    assert (Hcur3 : forallb (currentWrite opts)
                      (trace (extend s2 [ECreateBot (lastUpdateId s2)])) = true).
    { cbn. now rewrite forallb_app, Hcur2. }
    destruct (useWebhook opts).
    + cbn [snd extend trace]. rewrite storeWrites_app, !forallb_app.
      cbn [extend trace] in Hcur3. rewrite forallb_app in Hcur3. rewrite Hcur3.
      destruct Horder3 as [Hsorted _]. cbn [extend trace] in Hsorted.
      cbn. rewrite app_nil_r. now split.
    + split.
      * now apply loop_keeps_order.
      * now apply loop_writes_are_current.
Qed.

(** *** The checkpoint in memory and the last write *)

Lemma tracking_ignores_other_events (base s s' : Session) :
  storeWrites (trace s') = storeWrites (trace s) ->
  lastUpdateId s' = lastUpdateId s ->
  tracksWrites base s -> tracksWrites base s'.
Proof. unfold tracksWrites. intros -> ->. tauto. Qed.

Lemma persist_tracks_writes (opts : Options) (d : Delivery) (base s : Session) :
  tracksWrites base s -> tracksWrites base (snd (persistUpdateId opts d s)).
Proof.
  intros Htrack.
  destruct (persist_cases opts d s) as [[_ ->] | [_ ->]]; cbn [snd]; [exact Htrack|].
  right. cbn [advanced trace lastUpdateId].
  assert (Hwrites : storeWrites
                      (trace s ++ [EAssign (Some (updateId d));
                                   EStoreWrite (accountId opts) (updateId d) (tokenHash opts)]
                       ++ persistLog d)
                    = (storeWrites (trace s) ++ [updateId d])%list).
  { rewrite !storeWrites_app. unfold persistLog. now destruct (writeThrows d). }
  rewrite Hwrites.
  destruct Htrack as [[Hw _] | [earlier [id [Hw _]]]]; rewrite Hw.
  - exists [], (updateId d). now split.
  - exists (earlier ++ [id])%list, (updateId d). split; [|reflexivity].
    now rewrite <- !app_assoc.
Qed.

Lemma delivered_tracks_writes (opts : Options) (ds : list Delivery) (base s : Session) :
  tracksWrites base s -> tracksWrites base (delivered opts ds s).
Proof.
  revert s; induction ds as [|d ds IH]; intros s Hs; [exact Hs|].
  rewrite delivered_cons. apply IH. now apply persist_tracks_writes.
Qed.

(** Through the restart loop the checkpoint in memory is the id of the
    last store write the callback issued, and is the checkpoint the loop
    was entered with as long as none was issued: restarts, backoff and
    cancellation never touch it. *)
Theorem checkpoint_is_the_last_write (env : Collaborators) (opts : Options)
    (script : list Iteration) (st : Session) :
  tracksWrites st (snd (pollLoop env opts script st)).
Proof.
  apply (loop_invariant env opts (tracksWrites st)).
  - intros s _. apply tracking_ignores_other_events; [|reflexivity].
    cbn. rewrite storeWrites_app. cbn. now rewrite app_nil_r.
  - intros s ds. apply delivered_tracks_writes.
  - intros s. apply tracking_ignores_other_events; [|reflexivity].
    cbn. rewrite storeWrites_app. cbn. now rewrite app_nil_r.
  - intros s err turn _. apply tracking_ignores_other_events; [|reflexivity].
    cbn. rewrite storeWrites_app. cbn. now rewrite app_nil_r.
  - left. now split.
Qed.

End WriteFacts.

(* ================================================================= *)
(** ** The network test on rendered messages *)

Module NetworkFacts.

Import JsString JsStringFacts Classifier ClassifierFacts Contract Entry.
Local Open Scope string_scope.

Lemma containsIgnoringCase_wrapped (needle before text after : string) :
  containsIgnoringCase needle text ->
  containsIgnoringCase needle (before ++ text ++ after).
Proof.
  intros [b [piece [a [-> Hpiece]]]].
  exists (before ++ b), piece, (a ++ after). split; [|exact Hpiece].
  now rewrite !append_assoc.
Qed.

(** Text put around a rendered message never hides a network error: if
    an error is network-related under one rendering it is so under any
    rendering that wraps the first in more text; and an error whose
    rendering is empty, or that is falsy, is never network-related. *)
Theorem network_test_survives_wrapping (fmt : JsVal -> string) (err : JsVal)
    (before after : string) :
  (isNetworkRelatedError fmt err = true ->
   isNetworkRelatedError (wrapped before after fmt) err = true) /\
  (fmt err = EmptyString -> isNetworkRelatedError fmt err = false) /\
  isNetworkRelatedError fmt VFalsy = false.
Proof.
  split; [|split].
  - intros H. apply isNetworkRelatedError_iff in H as [Htruthy [snippet [Hin Hc]]].
    apply isNetworkRelatedError_iff. split; [exact Htruthy|].
    exists snippet. split; [exact Hin|]. unfold wrapped.
    now apply containsIgnoringCase_wrapped.
  - intros Hempty. unfold isNetworkRelatedError. rewrite Hempty.
    now destruct (truthy err).
  - reflexivity.
Qed.

Lemma network_test_survives_wrapping_witness :
  isNetworkRelatedError
    (wrapped "Call failed: " " (attempt 3)" (formatErrorMessage plainCollaborators))
    fetchFailedError = true.
Proof.
  apply (network_test_survives_wrapping (formatErrorMessage plainCollaborators)
           fetchFailedError "Call failed: " " (attempt 3)").
  reflexivity.
Defined.

End NetworkFacts.

(* ================================================================= *)
(** ** The checkpoint across restarts, and a failing store read *)

Module AcrossRestarts.

Import JsString Classifier Backoff Monitor Checkpoint CheckpointFacts.
Import Contract Turn Scenarios Startup Entry LoopFacts StartupFacts.
Local Open Scope Z_scope.

Lemma delivered_never_decreases (opts : Options) (ds : list Delivery) (s : Session)
    (c : Z) :
  (exists c', lastUpdateId s = Some c' /\ c <= c') ->
  exists c', lastUpdateId (delivered opts ds s) = Some c' /\ c <= c'.
Proof.
  revert s; induction ds as [|d ds IH]; intros s Hs; [exact Hs|].
  rewrite delivered_cons. apply IH. rewrite persist_checkpoint.
  destruct Hs as [c' [-> Hle]]. eexists. split; [reflexivity | lia].
Qed.

(** The checkpoint in memory never decreases through the restart loop:
    restarts do not reset it, and whatever the workers deliver, in
    whatever order, it ends at least where it began. *)
Theorem checkpoint_never_decreases (env : Collaborators) (opts : Options)
    (script : list Iteration) (st : Session) (c : Z) :
  lastUpdateId st = Some c ->
  exists c', lastUpdateId (snd (pollLoop env opts script st)) = Some c' /\ c <= c'.
Proof.
  intros Hc.
  apply (loop_invariant env opts
           (fun s => exists c', lastUpdateId s = Some c' /\ c <= c')); auto.
  - intros s ds. apply delivered_never_decreases.
  - exists c. split; [exact Hc | lia].
Qed.

Lemma checkpoint_never_decreases_witness :
  exists c',
    lastUpdateId
      (snd (pollLoop plainCollaborators sampleOptions conflictDeliveriesConflict
              (sessionAt (Some 1001)))) = Some c' /\ 1001 <= c'.
Proof.
  apply (checkpoint_never_decreases plainCollaborators sampleOptions
           conflictDeliveriesConflict (sessionAt (Some 1001)) 1001).
  reflexivity.
Defined.

(** The read of the stored state is awaited outside any [try]: when it
    throws, the entry point throws that error at once, in either mode,
    having neither reconciled, nor created the bot, nor started a webhook
    or a worker. *)
Theorem store_read_failure_ends_the_monitor (env : Collaborators) (opts : Options)
    (world : World) (st : Session) (e : JsVal) :
  isEmpty (token opts) = false ->
  storeRead world = Raised e ->
  monitorTelegramProvider env opts world st
  = (Raised e, extend st [EStoreRead (accountId opts)]).
Proof.
  intros Htoken Hread. unfold monitorTelegramProvider. unfold bind at 1.
  now rewrite (read_failure_propagates opts world st e Htoken Hread).
Qed.

Lemma store_read_failure_ends_the_monitor_witness :
  monitorTelegramProvider plainCollaborators sampleOptions
    (worldWith (Raised storageError) (probeAnswer [10%Z]) None) (sessionAt None)
  = (Raised storageError, extend (sessionAt None) [EStoreRead "default"]).
Proof.
  apply (store_read_failure_ends_the_monitor plainCollaborators sampleOptions
           (worldWith (Raised storageError) (probeAnswer [10%Z]) None)
           (sessionAt None) storageError); reflexivity.
Defined.

End AcrossRestarts.
